(** * bin2hex: Intel HEX and Motorola S-Record encoders

    A shallow embedding of [BinaryUtils.hpp], [HexConverter.cpp] and
    [SRecordConverter.cpp], and the properties of the records they emit.

    Conventions of the embedding:
    - [uint8_t], [uint16_t], [uint32_t] values are integers of [Z]; every
      conversion to a narrower type and every 32-bit addition is written
      out as a reduction modulo the width ([u8], [u16], [u32]);
    - [std::vector<uint8_t>] is [list byte];
    - [std::string] is [string]; the output file is the list of lines
      written to it, in order;
    - [size_t] quantities are bounded by the size of a vector and never
      wrap, they are plain integers of [Z];
    - a [while] loop is a function with fuel, [None] meaning that the
      fuel ran out. *)

From Stdlib Require Import ZArith List String Ascii Bool Lia.
From Stdlib.Strings Require Import Byte.
From Stdlib Require Import DecimalString.
Import ListNotations.
Open Scope string_scope.
Open Scope Z_scope.

(** ** Fixed-width unsigned integers *)

Definition u8 (x : Z) : Z := x mod 2 ^ 8.
Definition u16 (x : Z) : Z := x mod 2 ^ 16.
Definition u32 (x : Z) : Z := x mod 2 ^ 32.

(** The value of one element of a [std::vector<uint8_t>]. *)
Definition byte_val (b : byte) : Z := Z.of_N (Byte.to_N b).

(** The element of a [std::vector<uint8_t>] initialised from an
    integer expression. *)
Definition byte_of_Z (x : Z) : byte :=
  match Byte.of_N (Z.to_N (u8 x)) with
  | Some b => b
  | None => x00
  end.

(** [std::vector<uint8_t>(v.begin() + from, v.begin() + to)]. *)
Definition slice (v : list byte) (from to : Z) : list byte :=
  firstn (Z.to_nat (to - from)) (skipn (Z.to_nat from) v).

(** [v.size()]. *)
Definition size {A : Type} (v : list A) : Z := Z.of_nat (List.length v).

(** ** BinaryUtils.hpp *)

Module BinaryUtils.

(** A [char] computed as an integer expression. *)
Definition char_of (code : Z) : ascii := ascii_of_N (Z.to_N (u8 code)).

Definition nibble_to_hex (nibble : Z) : ascii :=
  if nibble <? 10 then char_of (48 + nibble) else char_of (65 + nibble - 10).

Definition byte_to_hex (value : Z) : string :=
  String (nibble_to_hex (Z.land (Z.shiftr value 4) 0x0F))
    (String (nibble_to_hex (Z.land value 0x0F)) EmptyString).

Definition word_to_hex (value : Z) : string :=
  byte_to_hex (u8 (Z.shiftr value 8)) ++ byte_to_hex (u8 (Z.land value 0xFF)).

Definition dword_to_hex (value : Z) : string :=
  word_to_hex (u16 (Z.shiftr value 16)) ++ word_to_hex (u16 (Z.land value 0xFFFF)).

End BinaryUtils.

(** The outcome of one conversion call: the value returned, the
    converter object afterwards (its [last_error_]) and the lines
    written to the output file. *)
Record Outcome (C : Type) : Type := mkOutcome {
  returned : bool;
  self_after : C;
  written : list string
}.
Arguments mkOutcome {C} _ _ _.
Arguments returned {C} _.
Arguments self_after {C} _.
Arguments written {C} _.

(** [for (uint8_t byte : data) record += byte_to_hex(byte);] *)
Definition append_data_hex (record : string) (data : list byte) : string :=
  fold_left (fun r b => r ++ BinaryUtils.byte_to_hex (byte_val b)) data record.

(** ** HexConverter.cpp *)

Module IntelHex.

Record IntelHexConverter : Type := mkConverter {
  bytes_per_line_ : Z;
  last_error_ : string
}.

Definition DATA_RECORD : Z := 0x00.
Definition EOF_RECORD : Z := 0x01.
Definition EXTENDED_SEGMENT_ADDRESS : Z := 0x02.
Definition START_SEGMENT_ADDRESS : Z := 0x03.
Definition EXTENDED_LINEAR_ADDRESS : Z := 0x04.
Definition START_LINEAR_ADDRESS : Z := 0x05.

(** The constructor clamps the line width to 1..255. *)
Definition new (bytes_per_line : Z) : IntelHexConverter :=
  {| bytes_per_line_ := Z.max 1 (Z.min 255 bytes_per_line);
     last_error_ := "" |}.

(** The setter does not clamp. *)
Definition set_bytes_per_line (self : IntelHexConverter) (bytes_per_line : Z)
  : IntelHexConverter :=
  {| bytes_per_line_ := bytes_per_line; last_error_ := last_error_ self |}.

Definition get_last_error (self : IntelHexConverter) : string :=
  last_error_ self.

Definition calculate_checksum (byte_count address record_type : Z)
    (data : list byte) : Z :=
  let sum := byte_count in
  let sum := u32 (sum + Z.land (Z.shiftr address 8) 0xFF) in
  let sum := u32 (sum + Z.land address 0xFF) in
  let sum := u32 (sum + record_type) in
  let sum := fold_left (fun s b => u32 (s + byte_val b)) data sum in
  u8 (Z.land (u32 (256 - Z.land sum 0xFF)) 0xFF).

Definition generate_record (byte_count address record_type : Z)
    (data : list byte) : string :=
  let record := ":" in
  let record := record ++ BinaryUtils.byte_to_hex byte_count in
  let record := record ++ BinaryUtils.byte_to_hex (u8 (Z.shiftr address 8)) in
  let record := record ++ BinaryUtils.byte_to_hex (u8 (Z.land address 0xFF)) in
  let record := record ++ BinaryUtils.byte_to_hex record_type in
  let record := append_data_hex record data in
  let checksum := calculate_checksum byte_count address record_type data in
  record ++ BinaryUtils.byte_to_hex checksum.

Definition generate_extended_address_record (address : Z) : string :=
  let extended_addr := u16 (Z.shiftr address 16) in
  let addr_data := [ byte_of_Z (u8 (Z.shiftr extended_addr 8));
                     byte_of_Z (u8 (Z.land extended_addr 0xFF)) ] in
  generate_record 2 0 EXTENDED_LINEAR_ADDRESS addr_data.

(** The [while (data_offset < binary_data.size())] loop of
    [convert_to_hex]; [out] is the file written so far. *)
Fixpoint write_data_records (fuel : nat) (bytes_per_line : Z)
    (use_extended_address : bool) (binary_data : list byte)
    (out : list string)
    (current_address extended_address data_offset : Z)
  : option (list string) :=
  if data_offset <? size binary_data then
    match fuel with
    | O => None
    | S fuel' =>
      let need_ext := use_extended_address
                      && negb (Z.shiftr current_address 16 =? extended_address) in
      let extended_address' :=
        if need_ext then Z.shiftr current_address 16 else extended_address in
      let out :=
        if need_ext
        then (out ++ [generate_extended_address_record current_address])%list
        else out in
      let bytes_remaining := size binary_data - data_offset in
      let bytes_this_line := Z.min bytes_per_line bytes_remaining in
      let max_bytes_to_boundary := 0x10000 - Z.land current_address 0xFFFF in
      let bytes_this_line := Z.min bytes_this_line max_bytes_to_boundary in
      let line_data :=
        slice binary_data data_offset (data_offset + bytes_this_line) in
      let record :=
        generate_record (u8 bytes_this_line)
                        (u16 (Z.land current_address 0xFFFF))
                        DATA_RECORD line_data in
      let out := (out ++ [record])%list in
      write_data_records fuel' bytes_per_line use_extended_address binary_data
        out (u32 (current_address + bytes_this_line)) extended_address'
        (data_offset + bytes_this_line)
    end
  else Some out.

Section Convert.

(** Whether [std::ofstream out(output_file)] opens the file. *)
Variable is_open : string -> bool.

(** [None]: the loop does not end, which happens for a line width of
    zero and a non-empty buffer only (see [convert_to_hex_returns] and
    [convert_to_hex_diverges]). *)
Definition convert_to_hex (self : IntelHexConverter) (binary_data : list byte)
    (start_address : Z) (output_file : string) (use_extended_address : bool)
  : option (Outcome IntelHexConverter) :=
  if negb (is_open output_file) then
    Some (mkOutcome false
            {| bytes_per_line_ := bytes_per_line_ self;
               last_error_ := "Failed to open output file: " ++ output_file |}
            [])
  else
    let current_address := start_address in
    let extended_address := 0xFFFFFFFF in
    let data_offset := 0 in
    match write_data_records (List.length binary_data) (bytes_per_line_ self)
            use_extended_address binary_data [] current_address
            extended_address data_offset with
    | None => None
    | Some out =>
      let eof_record := generate_record 0 0 EOF_RECORD [] in
      Some (mkOutcome true self (out ++ [eof_record])%list)
    end.

End Convert.

End IntelHex.

(** ** SRecordConverter.cpp *)

Module SRecord.

Inductive RecordType : Type :=
| S0_HEADER
| S1_DATA_16
| S2_DATA_24
| S3_DATA_32
| S4_RESERVED
| S5_COUNT_16
| S6_COUNT_24
| S7_END_32
| S8_END_24
| S9_END_16.

(** [static_cast<int>(type)]. *)
Definition int_of_type (type : RecordType) : Z :=
  match type with
  | S0_HEADER => 0
  | S1_DATA_16 => 1
  | S2_DATA_24 => 2
  | S3_DATA_32 => 3
  | S4_RESERVED => 4
  | S5_COUNT_16 => 5
  | S6_COUNT_24 => 6
  | S7_END_32 => 7
  | S8_END_24 => 8
  | S9_END_16 => 9
  end.

(** [std::to_string] of an [int]. *)
Definition to_string (n : Z) : string := NilZero.string_of_int (Z.to_int n).

Record SRecordConverter : Type := mkConverter {
  bytes_per_line_ : Z;
  last_error_ : string
}.

(** The constructor clamps the line width to 1..252. *)
Definition new (bytes_per_line : Z) : SRecordConverter :=
  {| bytes_per_line_ := Z.max 1 (Z.min 252 bytes_per_line);
     last_error_ := "" |}.

(** The setter does not clamp. *)
Definition set_bytes_per_line (self : SRecordConverter) (bytes_per_line : Z)
  : SRecordConverter :=
  {| bytes_per_line_ := bytes_per_line; last_error_ := last_error_ self |}.

Definition get_last_error (self : SRecordConverter) : string :=
  last_error_ self.

Definition get_address_bytes (type : RecordType) : Z :=
  match type with
  | S0_HEADER | S1_DATA_16 | S5_COUNT_16 | S9_END_16 => 2
  | S2_DATA_24 | S6_COUNT_24 | S8_END_24 => 3
  | S3_DATA_32 | S7_END_32 => 4
  | _ => 2
  end.

Definition get_data_record_type (address_size : Z) : RecordType :=
  if address_size =? 16 then S1_DATA_16
  else if address_size =? 24 then S2_DATA_24
  else if address_size =? 32 then S3_DATA_32
  else S3_DATA_32.

Definition get_end_record_type (address_size : Z) : RecordType :=
  if address_size =? 16 then S9_END_16
  else if address_size =? 24 then S8_END_24
  else if address_size =? 32 then S7_END_32
  else S7_END_32.

Definition calculate_checksum (byte_count address address_bytes : Z)
    (data : list byte) : Z :=
  let sum := byte_count in
  let sum :=
    if 2 <=? address_bytes
    then u32 (u32 (sum + Z.land (Z.shiftr address 8) 0xFF) + Z.land address 0xFF)
    else sum in
  let sum :=
    if 3 <=? address_bytes
    then u32 (sum + Z.land (Z.shiftr address 16) 0xFF)
    else sum in
  let sum :=
    if 4 <=? address_bytes
    then u32 (sum + Z.land (Z.shiftr address 24) 0xFF)
    else sum in
  let sum := fold_left (fun s b => u32 (s + byte_val b)) data sum in
  u8 (Z.land (Z.lxor sum 0xFFFFFFFF) 0xFF).

Definition generate_record (type : RecordType) (address : Z)
    (data : list byte) : string :=
  let record := "S" in
  let record := record ++ to_string (int_of_type type) in
  let addr_bytes := get_address_bytes type in
  let byte_count := u8 (addr_bytes + size data + 1) in
  let record := record ++ BinaryUtils.byte_to_hex byte_count in
  let record :=
    if 2 <=? addr_bytes
    then (record ++ BinaryUtils.byte_to_hex (u8 (Z.shiftr address 8)))
           ++ BinaryUtils.byte_to_hex (u8 (Z.land address 0xFF))
    else record in
  let record :=
    if 3 <=? addr_bytes
    then record ++ BinaryUtils.byte_to_hex (u8 (Z.shiftr address 16))
    else record in
  let record :=
    if 4 <=? addr_bytes
    then record ++ BinaryUtils.byte_to_hex (u8 (Z.shiftr address 24))
    else record in
  let record := append_data_hex record data in
  let checksum := calculate_checksum byte_count address addr_bytes data in
  record ++ BinaryUtils.byte_to_hex checksum.

(** The [while (data_offset < binary_data.size())] loop of
    [convert_to_srec]; it returns the file and [record_count]. *)
Fixpoint write_data_records (fuel : nat) (bytes_per_line : Z)
    (data_type : RecordType) (binary_data : list byte)
    (out : list string)
    (current_address data_offset record_count : Z)
  : option (list string * Z) :=
  if data_offset <? size binary_data then
    match fuel with
    | O => None
    | S fuel' =>
      let bytes_remaining := size binary_data - data_offset in
      let bytes_this_line := Z.min bytes_per_line bytes_remaining in
      let addr_bytes := get_address_bytes data_type in
      let max_data_bytes := 255 - addr_bytes - 1 in
      let bytes_this_line := Z.min bytes_this_line max_data_bytes in
      let line_data :=
        slice binary_data data_offset (data_offset + bytes_this_line) in
      let record := generate_record data_type current_address line_data in
      let out := (out ++ [record])%list in
      write_data_records fuel' bytes_per_line data_type binary_data out
        (u32 (current_address + bytes_this_line))
        (data_offset + bytes_this_line)
        (u32 (record_count + 1))
    end
  else Some (out, record_count).

Section Convert.

(** Whether [std::ofstream out(output_file)] opens the file. *)
Variable is_open : string -> bool.

(** [None]: the loop does not end, which happens for a line width of
    zero and a non-empty buffer only (see [srec_loop_terminates] and
    [srec_loop_diverges]). *)
Definition convert_to_srec (self : SRecordConverter) (binary_data : list byte)
    (start_address : Z) (output_file : string) (address_size : Z)
    (header : string)
  : option (Outcome SRecordConverter) :=
  if negb (is_open output_file) then
    Some (mkOutcome false
            {| bytes_per_line_ := bytes_per_line_ self;
               last_error_ := "Failed to open output file: " ++ output_file |}
            [])
  else if negb (address_size =? 16) && negb (address_size =? 24)
          && negb (address_size =? 32) then
    Some (mkOutcome false
            {| bytes_per_line_ := bytes_per_line_ self;
               last_error_ := "Invalid address size. Must be 16, 24, or 32 bits." |}
            [])
  else
    let out := [] in
    let out :=
      if negb (String.length header =? 0)%nat then
        let header_data := list_byte_of_string header in
        (out ++ [generate_record S0_HEADER 0 header_data])%list
      else out in
    let data_type := get_data_record_type address_size in
    let end_type := get_end_record_type address_size in
    let current_address := start_address in
    let data_offset := 0 in
    let record_count := 0 in
    match write_data_records (List.length binary_data) (bytes_per_line_ self)
            data_type binary_data out current_address data_offset
            record_count with
    | None => None
    | Some (out, record_count) =>
      let out :=
        if record_count <=? 0xFFFF then
          let count_data := [ byte_of_Z (u8 (Z.shiftr record_count 8));
                              byte_of_Z (u8 (Z.land record_count 0xFF)) ] in
          (out ++ [generate_record S5_COUNT_16 record_count count_data])%list
        else out in
      let end_record := generate_record end_type start_address [] in
      Some (mkOutcome true self (out ++ [end_record])%list)
    end.

End Convert.

End SRecord.

(** ** Reading a record back

    The fields of a line of output, read from its text: what a loader of
    the file sees.  Only upper-case hexadecimal digits are accepted. *)

Module Decode.

Definition hex_digit (c : ascii) : option Z :=
  let n := Z.of_N (N_of_ascii c) in
  if (48 <=? n) && (n <=? 57) then Some (n - 48)
  else if (65 <=? n) && (n <=? 70) then Some (n - 55)
  else None.

Fixpoint hex_bytes (s : string) : option (list Z) :=
  match s with
  | EmptyString => Some []
  | String h (String l rest) =>
    match hex_digit h, hex_digit l, hex_bytes rest with
    | Some a, Some b, Some r => Some (16 * a + b :: r)
    | _, _, _ => None
    end
  | String _ EmptyString => None
  end.

(** The last element of a list and what comes before it. *)
Definition split_last (l : list Z) : option (list Z * Z) :=
  match rev l with
  | [] => None
  | c :: r => Some (rev r, c)
  end.

Record IntelFields : Type := mkIntel {
  i_count : Z;
  i_addr_hi : Z;
  i_addr_lo : Z;
  i_type : Z;
  i_payload : list Z;
  i_checksum : Z
}.

Definition parse_intel (line : string) : option IntelFields :=
  match line with
  | String c rest =>
    if Ascii.eqb c ":" then
      match hex_bytes rest with
      | Some (bc :: hi :: lo :: ty :: tail) =>
        match split_last tail with
        | Some (payload, cs) => Some (mkIntel bc hi lo ty payload cs)
        | None => None
        end
      | _ => None
      end
    else None
  | EmptyString => None
  end.

(** The 16-bit address field of an Intel HEX record. *)
Definition i_address (f : IntelFields) : Z := 256 * i_addr_hi f + i_addr_lo f.

Record SFields : Type := mkS {
  s_type : Z;
  s_count : Z;
  s_address : list Z;
  s_payload : list Z;
  s_checksum : Z
}.

(** The width of the address field of an S-Record of type [t]: two
    bytes for S0, S1, S5, S9, three for S2, S6, S8, four for S3, S7. *)
Definition address_bytes (t : Z) : nat :=
  if (t =? 2) || (t =? 6) || (t =? 8) then 3%nat
  else if (t =? 3) || (t =? 7) then 4%nat
  else 2%nat.

Definition parse_srec (line : string) : option SFields :=
  match line with
  | String c (String d rest) =>
    if Ascii.eqb c "S" then
      match hex_digit d, hex_bytes rest with
      | Some t, Some (bc :: body) =>
        match split_last body with
        | Some (mid, cs) =>
          if (address_bytes t <=? List.length mid)%nat
          then Some (mkS t bc (firstn (address_bytes t) mid)
                         (skipn (address_bytes t) mid) cs)
          else None
        | None => None
        end
      | _, _ => None
      end
    else None
  | _ => None
  end.

(** Sum of a list of byte values. *)
Definition total (l : list Z) : Z := fold_right Z.add 0 l.

(** Big-endian value of a list of bytes. *)
Definition big_endian (l : list Z) : Z := fold_left (fun acc b => 256 * acc + b) l 0.

End Decode.

(** The hexadecimal text of a list of byte values. *)
Fixpoint hexes (l : list Z) : string :=
  match l with
  | [] => ""
  | b :: r => BinaryUtils.byte_to_hex b ++ hexes r
  end.

(** A buffer given by the values of its bytes. *)
Definition bytes_of (l : list Z) : list byte := map byte_of_Z l.


(** ** The calls made by the Intel HEX loop

    The same loop as [IntelHex.write_data_records], keeping the
    arguments of each record it generates instead of the text;
    [IntelHex_calls.write_data_records_calls] relates the two. *)

Module IntelHex_calls.

Inductive Call : Type :=
| Ext (current_address : Z)
| Data (current_address bytes_this_line : Z) (line_data : list byte).

Definition render (c : Call) : string :=
  match c with
  | Ext current_address =>
    IntelHex.generate_extended_address_record current_address
  | Data current_address bytes_this_line line_data =>
    IntelHex.generate_record (u8 bytes_this_line)
      (u16 (Z.land current_address 0xFFFF)) IntelHex.DATA_RECORD line_data
  end.

Fixpoint calls (fuel : nat) (bytes_per_line : Z)
    (use_extended_address : bool) (binary_data : list byte)
    (current_address extended_address data_offset : Z)
  : option (list Call) :=
  if data_offset <? size binary_data then
    match fuel with
    | O => None
    | S fuel' =>
      let need_ext := use_extended_address
                      && negb (Z.shiftr current_address 16 =? extended_address) in
      let extended_address' :=
        if need_ext then Z.shiftr current_address 16 else extended_address in
      let bytes_this_line :=
        Z.min (Z.min bytes_per_line (size binary_data - data_offset))
              (0x10000 - Z.land current_address 0xFFFF) in
      let line_data :=
        slice binary_data data_offset (data_offset + bytes_this_line) in
      match calls fuel' bytes_per_line use_extended_address binary_data
              (u32 (current_address + bytes_this_line)) extended_address'
              (data_offset + bytes_this_line) with
      | None => None
      | Some rest =>
        Some ((if need_ext then [Ext current_address] else [])
                ++ Data current_address bytes_this_line line_data :: rest)%list
      end
    end
  else Some [].

(** The record written after the loop. *)
Definition eof_line : string :=
  IntelHex.generate_record 0 0 IntelHex.EOF_RECORD [].

(** The 32-bit [current_address] at which a call was made. *)
Definition addr_of (c : Call) : Z :=
  match c with Ext a => a | Data a _ _ => a end.

Definition is_ext (c : Call) : bool :=
  match c with Ext _ => true | Data _ _ _ => false end.

(** Number of bytes of the buffer carried by a list of calls. *)
Fixpoint carried (cs : list Call) : Z :=
  match cs with
  | [] => 0
  | Ext _ :: r => carried r
  | Data _ _ d :: r => size d + carried r
  end.

(** The bytes of the buffer carried by a list of calls, in order. *)
Fixpoint contents (cs : list Call) : list byte :=
  match cs with
  | [] => []
  | Ext _ :: r => contents r
  | Data _ _ d :: r => (d ++ contents r)%list
  end.

End IntelHex_calls.

(** ** Quantities read from the output of the Intel HEX encoder *)

Module IntelOut.

Definition line_type (line : string) : option Z :=
  option_map Decode.i_type (Decode.parse_intel line).

Definition has_type (t : Z) (line : string) : bool :=
  match line_type line with
  | Some t' => t' =? t
  | None => false
  end.

(** Number of records of type [t] among [lines]. *)
Definition count_type (t : Z) (lines : list string) : nat :=
  List.length (filter (has_type t) lines).

(** Number of payload bytes of the data records among [lines]. *)
Fixpoint data_bytes (lines : list string) : Z :=
  match lines with
  | [] => 0
  | l :: r =>
    match Decode.parse_intel l with
    | Some f =>
      if Decode.i_type f =? IntelHex.DATA_RECORD
      then size (Decode.i_payload f) + data_bytes r
      else data_bytes r
    | None => data_bytes r
    end
  end.

(** The payload bytes of the data records among [lines], in order. *)
Fixpoint payloads (lines : list string) : list Z :=
  match lines with
  | [] => []
  | l :: r =>
    match Decode.parse_intel l with
    | Some f =>
      if Decode.i_type f =? IntelHex.DATA_RECORD
      then (Decode.i_payload f ++ payloads r)%list
      else payloads r
    | None => payloads r
    end
  end.

End IntelOut.

(** ** Quantities of the S-Record encoder *)

Module SOut.

(** The address bytes of a record, in the order in which
    [SRecord.generate_record] appends them to the line. *)
Definition address_field (type : SRecord.RecordType) (address : Z) : list Z :=
  let addr_bytes := SRecord.get_address_bytes type in
  ((if 2 <=? addr_bytes
    then [u8 (Z.shiftr address 8); u8 (Z.land address 0xFF)] else [])
   ++ (if 3 <=? addr_bytes then [u8 (Z.shiftr address 16)] else [])
   ++ (if 4 <=? addr_bytes then [u8 (Z.shiftr address 24)] else []))%list.

Definition line_type (line : string) : option Z :=
  option_map Decode.s_type (Decode.parse_srec line).

(** A string of [n] copies of the character [c]. *)
Fixpoint replicate (n : nat) (c : ascii) : string :=
  match n with
  | O => EmptyString
  | S n' => String c (replicate n' c)
  end.

(** The payload bytes of the data records (S1, S2, S3) among [lines],
    in order. *)
Fixpoint data_payloads (lines : list string) : list Z :=
  match lines with
  | [] => []
  | l :: r =>
    match Decode.parse_srec l with
    | Some f =>
      if (Decode.s_type f =? 1) || (Decode.s_type f =? 2) || (Decode.s_type f =? 3)
      then (Decode.s_payload f ++ data_payloads r)%list
      else data_payloads r
    | None => data_payloads r
    end
  end.

End SOut.

(** ** Loading a file back

    Loaders for the two formats, written from the formats and not from
    the encoders: each record must parse, its byte-count field must
    agree with its length and its checksum must verify; the result is
    the list of (address, byte) pairs the file puts in memory, in the
    order of the file. *)

Module Load.

(** The bytes [bytes] at consecutive addresses from [address]. *)
Fixpoint place (address : Z) (bytes : list Z) : list (Z * Z) :=
  match bytes with
  | [] => []
  | b :: r => (address, b) :: place (address + 1) r
  end.

(** Intel HEX: the byte count is the payload length and all bytes of
    the record, checksum included, add up to 0 modulo 256. *)
Definition intel_record_ok (f : Decode.IntelFields) : bool :=
  (Decode.i_count f =? size (Decode.i_payload f))
  && ((Decode.i_count f + Decode.i_addr_hi f + Decode.i_addr_lo f
       + Decode.i_type f + Decode.total (Decode.i_payload f)
       + Decode.i_checksum f) mod 256 =? 0).

(** [upper] is the upper half of the address set by the last
    extended-linear-address record, 0 at the start of a file.  The
    end-of-file record must be the last line. *)
Fixpoint load_intel (upper : Z) (lines : list string) : option (list (Z * Z)) :=
  match lines with
  | [] => None
  | l :: rest =>
    match Decode.parse_intel l with
    | None => None
    | Some f =>
      if negb (intel_record_ok f) then None
      else if Decode.i_type f =? 0 then
        match load_intel upper rest with
        | Some m =>
          Some (place (65536 * upper + Decode.i_address f) (Decode.i_payload f)
                  ++ m)%list
        | None => None
        end
      else if Decode.i_type f =? 4 then
        if size (Decode.i_payload f) =? 2
        then load_intel (Decode.big_endian (Decode.i_payload f)) rest
        else None
      else if Decode.i_type f =? 1 then
        match rest with
        | [] => Some []
        | _ :: _ => None
        end
      else None
    end
  end.

(** S-Record: the byte count covers address, payload and checksum, and
    all bytes of the record, checksum included, add up to 255 modulo
    256. *)
Definition srec_record_ok (f : Decode.SFields) : bool :=
  (Decode.s_count f =? size (Decode.s_address f) + size (Decode.s_payload f) + 1)
  && ((Decode.s_count f + Decode.total (Decode.s_address f)
       + Decode.total (Decode.s_payload f) + Decode.s_checksum f) mod 256
      =? 255).

(** [seen] is the number of data records read so far; a count record
    must carry it in its address field, most significant byte first,
    as data records carry their address.  The end record must be the
    last line. *)
Fixpoint load_srec (seen : Z) (lines : list string) : option (list (Z * Z)) :=
  match lines with
  | [] => None
  | l :: rest =>
    match Decode.parse_srec l with
    | None => None
    | Some f =>
      let t := Decode.s_type f in
      if negb (srec_record_ok f) then None
      else if t =? 0 then load_srec seen rest
      else if (t =? 1) || (t =? 2) || (t =? 3) then
        match load_srec (seen + 1) rest with
        | Some m =>
          Some (place (Decode.big_endian (Decode.s_address f))
                      (Decode.s_payload f) ++ m)%list
        | None => None
        end
      else if (t =? 5) || (t =? 6) then
        if Decode.big_endian (Decode.s_address f) =? seen
        then load_srec seen rest
        else None
      else if (t =? 7) || (t =? 8) || (t =? 9) then
        match rest with
        | [] => Some []
        | _ :: _ => None
        end
      else None
    end
  end.

End Load.

(** ** bin2hex.cpp *)

Module Bin2hex.

(** [s.find_last_of(chars)]: the index of the last character of [s]
    that is one of [chars]; [None] is [std::string::npos]. *)
Fixpoint find_last_of_from (chars : list ascii) (s : string) (i : nat)
    (last : option nat) : option nat :=
  match s with
  | EmptyString => last
  | String c r =>
    find_last_of_from chars r (S i)
      (if existsb (Ascii.eqb c) chars then Some i else last)
  end.

Definition find_last_of (chars : list ascii) (s : string) : option nat :=
  find_last_of_from chars s 0%nat None.

(** [s.substr(pos, len)] for [pos <= s.length()]. *)
Definition substr (s : string) (pos len : nat) : string :=
  String.substring pos len s.

Definition get_base_filename (path : string) : string :=
  let last_slash := find_last_of ["/"%char; "\"%char] path in
  let start := match last_slash with None => 0%nat | Some i => (i + 1)%nat end in
  let last_dot := find_last_of ["."%char] path in
  let end_ :=
    match last_dot with
    | None => String.length path
    | Some d => if (d <? start)%nat then String.length path else d
    end in
  substr path start (end_ - start).

End Bin2hex.

(** * Properties *)

(** ** Fixed-width arithmetic *)

Lemma land_FF (x : Z) : Z.land x 0xFF = x mod 256.
Proof. change 0xFF with (Z.ones 8). rewrite Z.land_ones by lia. reflexivity. Qed.

Lemma land_0F (x : Z) : Z.land x 0x0F = x mod 16.
Proof. change 0x0F with (Z.ones 4). rewrite Z.land_ones by lia. reflexivity. Qed.

Lemma land_FFFF (x : Z) : Z.land x 0xFFFF = x mod 65536.
Proof. change 0xFFFF with (Z.ones 16). rewrite Z.land_ones by lia. reflexivity. Qed.

Lemma shiftr_4 (x : Z) : Z.shiftr x 4 = x / 16.
Proof. rewrite Z.shiftr_div_pow2 by lia. reflexivity. Qed.

Lemma shiftr_8 (x : Z) : Z.shiftr x 8 = x / 256.
Proof. rewrite Z.shiftr_div_pow2 by lia. reflexivity. Qed.

Lemma shiftr_16 (x : Z) : Z.shiftr x 16 = x / 65536.
Proof. rewrite Z.shiftr_div_pow2 by lia. reflexivity. Qed.

Lemma u8_range (x : Z) : 0 <= u8 x < 256.
Proof. unfold u8. change (2 ^ 8) with 256. apply Z.mod_pos_bound. lia. Qed.

Lemma u16_range (x : Z) : 0 <= u16 x < 65536.
Proof. unfold u16. change (2 ^ 16) with 65536. apply Z.mod_pos_bound. lia. Qed.

Lemma u32_range (x : Z) : 0 <= u32 x < 4294967296.
Proof. unfold u32. change (2 ^ 32) with 4294967296. apply Z.mod_pos_bound. lia. Qed.

Lemma u8_small (x : Z) : 0 <= x < 256 -> u8 x = x.
Proof. intros H. unfold u8. change (2 ^ 8) with 256. apply Z.mod_small. exact H. Qed.

Lemma u32_small (x : Z) : 0 <= x < 4294967296 -> u32 x = x.
Proof. intros H. unfold u32. change (2 ^ 32) with 4294967296. apply Z.mod_small. exact H. Qed.

Lemma u32_mod_256 (x : Z) : u32 x mod 256 = x mod 256.
Proof.
  unfold u32. change (2 ^ 32) with 4294967296.
  Z.div_mod_to_equations. lia.
Qed.

Lemma u32_mod_65536 (x : Z) : u32 x mod 65536 = x mod 65536.
Proof.
  unfold u32. change (2 ^ 32) with 4294967296.
  Z.div_mod_to_equations. lia.
Qed.

Lemma byte_val_range (b : byte) : 0 <= byte_val b < 256.
Proof.
  unfold byte_val. pose proof (Byte.to_N_bounded b). lia.
Qed.

Lemma byte_val_of_Z (x : Z) : 0 <= x < 256 -> byte_val (byte_of_Z x) = x.
Proof.
  intros H. unfold byte_val, byte_of_Z. rewrite (u8_small x H).
  destruct (Byte.of_N (Z.to_N x)) as [b|] eqn:E.
  - apply Byte.to_of_N in E. rewrite E. lia.
  - apply Byte.of_N_None_iff in E. lia.
Qed.

(** ** Hexadecimal text *)

Lemma hex_digit_nibble_nat (k : nat) :
  (k < 16)%nat ->
  Decode.hex_digit (BinaryUtils.nibble_to_hex (Z.of_nat k)) = Some (Z.of_nat k).
Proof.
  intros H. do 16 (destruct k as [|k]; [reflexivity|]). lia.
Qed.

Lemma hex_digit_nibble (n : Z) :
  0 <= n < 16 -> Decode.hex_digit (BinaryUtils.nibble_to_hex n) = Some n.
Proof.
  intros H. rewrite <- (Z2Nat.id n) by lia.
  apply hex_digit_nibble_nat. lia.
Qed.

Lemma hex_bytes_byte (v : Z) (s : string) :
  0 <= v < 256 ->
  Decode.hex_bytes (BinaryUtils.byte_to_hex v ++ s) =
  match Decode.hex_bytes s with
  | Some r => Some (v :: r)
  | None => None
  end.
Proof.
  intros H. unfold BinaryUtils.byte_to_hex.
  cbn [String.append Decode.hex_bytes].
  rewrite land_0F, shiftr_4, land_0F.
  assert (0 <= v / 16 < 16) as Hq by (split; [apply Z.div_pos|apply Z.div_lt_upper_bound]; lia).
  rewrite (Z.mod_small (v / 16) 16 Hq).
  rewrite !hex_digit_nibble by (try exact Hq; apply Z.mod_pos_bound; lia).
  assert (16 * (v / 16) + v mod 16 = v) as E
    by (symmetry; apply Z.div_mod; lia).
  rewrite E. reflexivity.
Qed.

Lemma hex_bytes_hexes (l : list Z) :
  Forall (fun v => 0 <= v < 256) l -> Decode.hex_bytes (hexes l) = Some l.
Proof.
  induction 1 as [|v l Hv _ IH]; [reflexivity|].
  cbn [hexes]. rewrite hex_bytes_byte by exact Hv. rewrite IH. reflexivity.
Qed.

Lemma hexes_app (a b : list Z) : hexes (a ++ b) = hexes a ++ hexes b.
Proof.
  induction a as [|v a IH]; [reflexivity|].
  cbn [hexes app]. rewrite IH.
  unfold BinaryUtils.byte_to_hex. reflexivity.
Qed.

Lemma string_app_assoc (a b c : string) : (a ++ b) ++ c = a ++ (b ++ c).
Proof. induction a as [|x a IH]; [reflexivity|]. cbn. rewrite IH. reflexivity. Qed.

Lemma string_app_empty (a : string) : a ++ "" = a.
Proof. induction a as [|x a IH]; [reflexivity|]. cbn. rewrite IH. reflexivity. Qed.

Lemma append_data_hex_spec (record : string) (data : list byte) :
  append_data_hex record data = record ++ hexes (map byte_val data).
Proof.
  unfold append_data_hex. revert record.
  induction data as [|b data IH]; intros record.
  - cbn. symmetry. apply string_app_empty.
  - cbn [fold_left map hexes]. rewrite IH. apply string_app_assoc.
Qed.

Lemma Forall_byte_val (data : list byte) :
  Forall (fun v => 0 <= v < 256) (map byte_val data).
Proof.
  induction data; constructor; auto using byte_val_range.
Qed.

Lemma split_last_snoc (l : list Z) (c : Z) :
  Decode.split_last (l ++ [c]) = Some (l, c).
Proof.
  unfold Decode.split_last. rewrite rev_app_distr. cbn. rewrite rev_involutive.
  reflexivity.
Qed.

Lemma total_app (a b : list Z) : Decode.total (a ++ b) = Decode.total a + Decode.total b.
Proof.
  unfold Decode.total. induction a as [|x a IH]; cbn; [reflexivity|]. rewrite IH. lia.
Qed.

(** The 32-bit accumulation of the checksum loops agrees modulo 256
    with the exact sum. *)
Lemma sum_loop_mod_256 (data : list byte) (s0 : Z) :
  fold_left (fun s b => u32 (s + byte_val b)) data s0 mod 256 =
  (s0 + Decode.total (map byte_val data)) mod 256.
Proof.
  revert s0. induction data as [|b data IH]; intros s0.
  - cbn. f_equal. lia.
  - cbn [fold_left map]. rewrite IH.
    change (Decode.total (byte_val b :: map byte_val data))
      with (byte_val b + Decode.total (map byte_val data)).
    rewrite Z.add_mod by lia. rewrite u32_mod_256.
    rewrite <- Z.add_mod by lia. f_equal. lia.
Qed.

(** ** One Intel HEX record *)

Lemma intel_generate_record_text (byte_count address record_type : Z) (data : list byte) :
  IntelHex.generate_record byte_count address record_type data =
  ":" ++ hexes ([byte_count; u8 (Z.shiftr address 8); u8 (Z.land address 0xFF);
                 record_type] ++ map byte_val data
                ++ [IntelHex.calculate_checksum byte_count address record_type data]).
Proof.
  unfold IntelHex.generate_record. cbv zeta.
  rewrite append_data_hex_spec.
  rewrite !hexes_app. cbn [hexes app].
  rewrite !string_app_assoc, string_app_empty. reflexivity.
Qed.

Lemma intel_parse_generate (byte_count address record_type : Z) (data : list byte) :
  0 <= byte_count < 256 -> 0 <= record_type < 256 ->
  Decode.parse_intel (IntelHex.generate_record byte_count address record_type data) =
  Some (Decode.mkIntel byte_count (u8 (Z.shiftr address 8)) (u8 (Z.land address 0xFF))
          record_type (map byte_val data)
          (IntelHex.calculate_checksum byte_count address record_type data)).
Proof.
  intros Hc Ht. rewrite intel_generate_record_text.
  cbn [String.append Decode.parse_intel]. 
  change (Ascii.eqb ":" ":") with true. cbv iota.
  rewrite hex_bytes_hexes.
  - cbn [app]. rewrite split_last_snoc. reflexivity.
  - cbn [app].
    constructor; [exact Hc|]. constructor; [apply u8_range|].
    constructor; [apply u8_range|]. constructor; [exact Ht|].
    apply Forall_app. split; [apply Forall_byte_val|].
    constructor; [|constructor]. unfold IntelHex.calculate_checksum. apply u8_range.
Qed.

Lemma intel_calculate_checksum_spec (byte_count address record_type : Z) (data : list byte) :
  IntelHex.calculate_checksum byte_count address record_type data =
  (256 - (byte_count + u8 (Z.shiftr address 8) + u8 (Z.land address 0xFF)
          + record_type + Decode.total (map byte_val data)) mod 256) mod 256.
Proof.
  unfold IntelHex.calculate_checksum. cbv zeta.
  rewrite !land_FF. rewrite sum_loop_mod_256.
  set (t := Decode.total (map byte_val data)).
  unfold u8. change (2 ^ 8) with 256.
  assert ((u32 (u32 (u32 (byte_count + Z.shiftr address 8 mod 256) + address mod 256)
                + record_type) + t) mod 256
          = (byte_count + Z.shiftr address 8 mod 256 + (address mod 256) mod 256
             + record_type + t) mod 256) as E.
  { rewrite (Z.add_mod _ t) by lia. rewrite u32_mod_256.
    rewrite (Z.add_mod _ record_type) by lia. rewrite u32_mod_256.
    rewrite (Z.add_mod _ (address mod 256)) by lia. rewrite u32_mod_256.
    rewrite <- (Z.add_mod _ (address mod 256)) by lia.
    rewrite <- (Z.add_mod _ record_type) by lia.
    rewrite <- (Z.add_mod _ t) by lia.
    rewrite (Z.mod_mod address) by lia. reflexivity. }
  rewrite E.
  set (m := (_ + t) mod 256).
  assert (0 <= m < 256) as Hm by (apply Z.mod_pos_bound; lia).
  rewrite (u32_small (256 - m)) by lia.
  apply Z.mod_mod. lia.
Qed.

(** ** The Intel HEX loop *)

Import IntelHex_calls.

Lemma write_data_records_calls (fuel : nat) (bpl : Z) (ext : bool)
    (data : list byte) (out : list string) (cur ea off : Z) :
  IntelHex.write_data_records fuel bpl ext data out cur ea off =
  option_map (fun cs => (out ++ map render cs)%list) (calls fuel bpl ext data cur ea off).
Proof.
  revert out cur ea off.
  induction fuel as [|fuel IH]; intros out cur ea off;
    cbn [IntelHex.write_data_records calls];
    destruct (off <? size data); cbn [option_map];
    try (rewrite app_nil_r; reflexivity); try reflexivity.
  cbv zeta. rewrite IH.
  match goal with |- context [calls fuel bpl ext data ?c ?e ?o] =>
    destruct (calls fuel bpl ext data c e o) as [rest|] end;
    cbn [option_map]; [|reflexivity].
  f_equal.
  destruct (ext && negb (Z.shiftr cur 16 =? ea))%bool;
    cbn [app map render]; rewrite <- !app_assoc; reflexivity.
Qed.

Lemma min_chunk_positive (bpl rem cur : Z) :
  1 <= bpl -> 1 <= rem ->
  1 <= Z.min (Z.min bpl rem) (0x10000 - Z.land cur 0xFFFF).
Proof.
  intros Hb Hr. rewrite land_FFFF.
  pose proof (Z.mod_pos_bound cur 65536). lia.
Qed.

(** With a line width of at least one byte the loop ends within
    [size binary_data - data_offset] iterations. *)
Lemma calls_terminates (fuel : nat) (bpl : Z) (ext : bool) (data : list byte)
    (cur ea off : Z) :
  1 <= bpl -> size data - off <= Z.of_nat fuel ->
  exists cs, calls fuel bpl ext data cur ea off = Some cs.
Proof.
  intros Hb. revert cur ea off.
  induction fuel as [|fuel IH]; intros cur ea off Hf; cbn [calls];
    destruct (Z.ltb_spec off (size data)) as [Hlt|Hge]; try (eexists; reflexivity).
  - lia.
  - cbv zeta.
    pose proof (min_chunk_positive bpl (size data - off) cur Hb ltac:(lia)) as Hn.
    set (n := Z.min (Z.min bpl (size data - off)) (0x10000 - Z.land cur 0xFFFF)) in *.
    destruct (IH (u32 (cur + n))
                 (if (ext && negb (Z.shiftr cur 16 =? ea))%bool
                  then Z.shiftr cur 16 else ea)
                 (off + n)) as [rest E]; [lia|].
    rewrite E. eexists; reflexivity.
Qed.

(** With a line width of zero and bytes left to write, the loop never
    ends: no amount of fuel gives a result. *)
Lemma calls_diverges (fuel : nat) (bpl : Z) (ext : bool) (data : list byte)
    (cur ea off : Z) :
  bpl <= 0 -> off < size data ->
  calls fuel bpl ext data cur ea off = None.
Proof.
  intros Hb. revert cur ea off.
  induction fuel as [|fuel IH]; intros cur ea off Hlt; cbn [calls];
    destruct (Z.ltb_spec off (size data)) as [_|Hge]; try lia; [reflexivity|].
  cbv zeta. rewrite IH; [reflexivity|]. lia.
Qed.

Lemma convert_to_hex_calls (is_open : string -> bool)
    (self : IntelHex.IntelHexConverter) (data : list byte) (start : Z)
    (file : string) (ext : bool) :
  is_open file = true ->
  IntelHex.convert_to_hex is_open self data start file ext =
  option_map
    (fun cs => mkOutcome true self (map render cs ++ [eof_line])%list)
    (calls (List.length data) (IntelHex.bytes_per_line_ self) ext data start 0xFFFFFFFF 0).
Proof.
  intros Ho. unfold IntelHex.convert_to_hex. rewrite Ho. cbn [negb].
  cbv zeta. rewrite write_data_records_calls.
  destruct (calls _ _ _ _ _ _ _); reflexivity.
Qed.

Lemma convert_to_hex_closed (is_open : string -> bool)
    (self : IntelHex.IntelHexConverter) (data : list byte) (start : Z)
    (file : string) (ext : bool) :
  is_open file = false ->
  IntelHex.convert_to_hex is_open self data start file ext =
  Some (mkOutcome false
          (IntelHex.mkConverter (IntelHex.bytes_per_line_ self)
             ("Failed to open output file: " ++ file)) []).
Proof.
  intros Ho. unfold IntelHex.convert_to_hex. rewrite Ho. reflexivity.
Qed.

(** The conversion returns whenever the line width is at least one. *)
Lemma convert_to_hex_returns (is_open : string -> bool)
    (self : IntelHex.IntelHexConverter) (data : list byte) (start : Z)
    (file : string) (ext : bool) :
  1 <= IntelHex.bytes_per_line_ self ->
  exists r, IntelHex.convert_to_hex is_open self data start file ext = Some r.
Proof.
  intros Hb. destruct (is_open file) eqn:Ho.
  - rewrite convert_to_hex_calls by exact Ho.
    destruct (calls_terminates (List.length data) (IntelHex.bytes_per_line_ self)
                ext data start 0xFFFFFFFF 0 Hb) as [cs E].
    + unfold size. lia.
    + rewrite E. eexists; reflexivity.
  - rewrite convert_to_hex_closed by exact Ho. eexists; reflexivity.
Qed.

(** With a line width of zero and a non-empty buffer the conversion
    does not return. *)
Lemma convert_to_hex_diverges (is_open : string -> bool)
    (self : IntelHex.IntelHexConverter) (data : list byte) (start : Z)
    (file : string) (ext : bool) :
  is_open file = true -> IntelHex.bytes_per_line_ self <= 0 -> data <> [] ->
  IntelHex.convert_to_hex is_open self data start file ext = None.
Proof.
  intros Ho Hb Hd. rewrite convert_to_hex_calls by exact Ho.
  rewrite calls_diverges; [reflexivity|exact Hb|].
  destruct data; [contradiction|]. unfold size. cbn [List.length]. lia.
Qed.

(** What a reader of the file finds in each kind of line. *)
Lemma parse_render_data (cur n : Z) (d : list byte) :
  Decode.parse_intel (render (Data cur n d)) =
  Some (Decode.mkIntel (u8 n) ((cur mod 65536) / 256) (cur mod 256) 0
          (map byte_val d)
          (IntelHex.calculate_checksum (u8 n) (u16 (Z.land cur 0xFFFF))
             IntelHex.DATA_RECORD d)).
Proof.
  cbn [render]. rewrite intel_parse_generate.
  - f_equal. f_equal.
    + rewrite shiftr_8, land_FFFF. unfold u8, u16.
      change (2 ^ 8) with 256. change (2 ^ 16) with 65536.
      Z.div_mod_to_equations. lia.
    + rewrite land_FF, land_FFFF. unfold u8, u16.
      change (2 ^ 8) with 256. change (2 ^ 16) with 65536.
      Z.div_mod_to_equations. lia.
  - apply u8_range.
  - unfold IntelHex.DATA_RECORD. lia.
Qed.

Lemma parse_render_ext (cur : Z) :
  Decode.parse_intel (render (Ext cur)) =
  Some (Decode.mkIntel 2 0 0 4
          [u16 (Z.shiftr cur 16) / 256; u16 (Z.shiftr cur 16) mod 256]
          (IntelHex.calculate_checksum 2 0 IntelHex.EXTENDED_LINEAR_ADDRESS
             [byte_of_Z (u8 (Z.shiftr (u16 (Z.shiftr cur 16)) 8));
              byte_of_Z (u8 (Z.land (u16 (Z.shiftr cur 16)) 0xFF))])).
Proof.
  cbn [render]. unfold IntelHex.generate_extended_address_record. cbv zeta.
  rewrite intel_parse_generate by (unfold IntelHex.EXTENDED_LINEAR_ADDRESS; lia).
  f_equal. f_equal. cbn [map].
  rewrite !byte_val_of_Z by apply u8_range.
  pose proof (u16_range (Z.shiftr cur 16)) as Hr.
  set (h := u16 (Z.shiftr cur 16)) in *.
  rewrite shiftr_8, land_FF. unfold u8. change (2 ^ 8) with 256.
  f_equal; [|f_equal]; Z.div_mod_to_equations; lia.
Qed.

Lemma parse_eof_line :
  Decode.parse_intel eof_line = Some (Decode.mkIntel 0 0 0 1 [] 255).
Proof. reflexivity. Qed.

Lemma size_map {A B : Type} (f : A -> B) (l : list A) : size (map f l) = size l.
Proof. unfold size. rewrite length_map. reflexivity. Qed.

Lemma slice_size_le (v : list byte) (from n : Z) :
  size (slice v from (from + n)) <= Z.max 0 n.
Proof.
  unfold size, slice. replace (from + n - from) with n by lia.
  pose proof (firstn_le_length (Z.to_nat n) (skipn (Z.to_nat from) v)). lia.
Qed.

Lemma slice_size (v : list byte) (from n : Z) :
  0 <= from -> 0 <= n -> from + n <= size v ->
  size (slice v from (from + n)) = n.
Proof.
  unfold size, slice. intros Hf Hn Hs. replace (from + n - from) with n by lia.
  rewrite firstn_length_le; [lia|]. rewrite length_skipn. lia.
Qed.

(** Every data record the loop generates respects the line width and
    stops at the end of its 64 KiB page. *)
Lemma calls_data_bounds (fuel : nat) (bpl : Z) (ext : bool) (data : list byte)
    (cur ea off : Z) (cs : list Call) :
  0 <= bpl ->
  calls fuel bpl ext data cur ea off = Some cs ->
  Forall (fun c => match c with
                   | Ext _ => True
                   | Data a n d => size d <= bpl /\ size d <= 0x10000 - a mod 65536
                   end) cs.
Proof.
  intros Hb. revert cur ea off cs.
  induction fuel as [|fuel IH]; intros cur ea off cs; cbn [calls];
    destruct (off <? size data); try discriminate;
    try (intros [= <-]; constructor).
  cbv zeta.
  set (n := Z.min (Z.min bpl (size data - off)) (0x10000 - Z.land cur 0xFFFF)).
  match goal with |- context [calls fuel bpl ext data ?c ?e ?o] =>
    destruct (calls fuel bpl ext data c e o) as [rest|] eqn:E end;
    [|discriminate].
  intros [= <-]. apply Forall_app. split.
  - destruct (ext && negb (Z.shiftr cur 16 =? ea))%bool; repeat constructor.
  - constructor; [|eapply IH; exact E].
    pose proof (slice_size_le data off n) as Hs.
    assert (n <= bpl) by (unfold n; lia).
    assert (n <= 0x10000 - cur mod 65536) by (unfold n; rewrite land_FFFF; lia).
    pose proof (Z.mod_pos_bound cur 65536).
    lia.
Qed.

(** ** Claims about the Intel HEX encoder *)

(** C4. In every record written by [convert_to_hex] (data, extended
    linear address, end of file), the checksum byte read from the line
    is [(256 - (S mod 256)) mod 256], where [S] is the sum of the
    byte-count field, the two address bytes, the record type and every
    payload byte read from the same line. *)
Theorem intel_checksum_every_record
    (is_open : string -> bool) (self : IntelHex.IntelHexConverter)
    (binary_data : list byte) (start_address : Z) (output_file : string)
    (use_extended_address : bool) (r : Outcome IntelHex.IntelHexConverter) :
  IntelHex.convert_to_hex is_open self binary_data start_address output_file
    use_extended_address = Some r ->
  Forall (fun line =>
            exists f, Decode.parse_intel line = Some f /\
              Decode.i_checksum f =
              (256 - (Decode.i_count f + Decode.i_addr_hi f + Decode.i_addr_lo f
                      + Decode.i_type f + Decode.total (Decode.i_payload f))
                     mod 256) mod 256)
         (written r).
Proof.
  assert (forall bc addr ty d, 0 <= bc < 256 -> 0 <= ty < 256 ->
            exists f, Decode.parse_intel (IntelHex.generate_record bc addr ty d) = Some f /\
              Decode.i_checksum f =
              (256 - (Decode.i_count f + Decode.i_addr_hi f + Decode.i_addr_lo f
                      + Decode.i_type f + Decode.total (Decode.i_payload f))
                     mod 256) mod 256) as G.
  { intros bc addr ty d Hc Ht. eexists. split.
    - apply intel_parse_generate; assumption.
    - cbn [Decode.i_checksum Decode.i_count Decode.i_addr_hi Decode.i_addr_lo
           Decode.i_type Decode.i_payload].
      apply intel_calculate_checksum_spec. }
  destruct (is_open output_file) eqn:Ho.
  - rewrite convert_to_hex_calls by exact Ho.
    destruct (calls _ _ _ _ _ _ _) as [cs|]; [|discriminate].
    intros [= <-]. cbn [written]. apply Forall_app. split.
    + apply Forall_map. apply Forall_forall. intros c _.
      destruct c as [a|a n d]; cbn [render].
      * unfold IntelHex.generate_extended_address_record. cbv zeta.
        apply G; unfold IntelHex.EXTENDED_LINEAR_ADDRESS; lia.
      * apply G; [apply u8_range|unfold IntelHex.DATA_RECORD; lia].
    + constructor; [|constructor].
      apply G; unfold IntelHex.EOF_RECORD; lia.
  - rewrite convert_to_hex_closed by exact Ho. intros [= <-]. constructor.
Qed.

Lemma intel_checksum_every_record_witness :
  Forall (fun line =>
            exists f, Decode.parse_intel line = Some f /\
              Decode.i_checksum f =
              (256 - (Decode.i_count f + Decode.i_addr_hi f + Decode.i_addr_lo f
                      + Decode.i_type f + Decode.total (Decode.i_payload f))
                     mod 256) mod 256)
         [":020000040000FA"; ":0400000001020304F2"; ":00000001FF"].
Proof.
  apply (intel_checksum_every_record (fun _ => true) (IntelHex.new 4)
           (bytes_of [1; 2; 3; 4]) 0 "out.hex" true
           (mkOutcome true (IntelHex.new 4)
              [":020000040000FA"; ":0400000001020304F2"; ":00000001FF"])).
  reflexivity.
Defined.

(** C6. For every buffer, start address and line width, every data
    record written has a payload of at most the configured number of
    bytes per line, and the payload ends within the 64 KiB page of the
    record's 16-bit address: its length is at most [0x10000] minus the
    address field. *)
Theorem intel_data_record_bounds
    (is_open : string -> bool) (self : IntelHex.IntelHexConverter)
    (binary_data : list byte) (start_address : Z) (output_file : string)
    (use_extended_address : bool) (r : Outcome IntelHex.IntelHexConverter) :
  0 <= IntelHex.bytes_per_line_ self ->
  IntelHex.convert_to_hex is_open self binary_data start_address output_file
    use_extended_address = Some r ->
  Forall (fun line =>
            exists f, Decode.parse_intel line = Some f /\
              (Decode.i_type f = IntelHex.DATA_RECORD ->
               size (Decode.i_payload f) <= IntelHex.bytes_per_line_ self /\
               size (Decode.i_payload f) <= 0x10000 - Decode.i_address f /\
               Decode.i_address f + size (Decode.i_payload f) - 1 < 0x10000))
         (written r).
Proof.
  intros Hb. destruct (is_open output_file) eqn:Ho.
  - rewrite convert_to_hex_calls by exact Ho.
    destruct (calls _ _ _ _ _ _ _) as [cs|] eqn:E; [|discriminate].
    intros [= <-]. cbn [written]. apply Forall_app. split.
    + apply Forall_map.
      pose proof (calls_data_bounds _ _ _ _ _ _ _ _ Hb E) as B.
      eapply Forall_impl; [|exact B]. intros c Hc.
      destruct c as [a|a n d].
      * eexists. split; [apply parse_render_ext|].
        cbn [Decode.i_type]. unfold IntelHex.DATA_RECORD. discriminate.
      * eexists. split; [apply parse_render_data|]. intros _.
        unfold Decode.i_address.
        cbn [Decode.i_payload Decode.i_addr_hi Decode.i_addr_lo].
        rewrite size_map.
        assert (256 * (a mod 65536 / 256) + a mod 256 = a mod 65536) as Ea
          by (Z.div_mod_to_equations; lia).
        rewrite Ea. lia.
    + constructor; [|constructor].
      eexists. split; [apply parse_eof_line|].
      cbn [Decode.i_type]. unfold IntelHex.DATA_RECORD. discriminate.
  - rewrite convert_to_hex_closed by exact Ho. intros [= <-]. constructor.
Qed.

Lemma intel_data_record_bounds_witness :
  Forall (fun line =>
            exists f, Decode.parse_intel line = Some f /\
              (Decode.i_type f = IntelHex.DATA_RECORD ->
               size (Decode.i_payload f) <= 4 /\
               size (Decode.i_payload f) <= 0x10000 - Decode.i_address f /\
               Decode.i_address f + size (Decode.i_payload f) - 1 < 0x10000))
         [":020000040000FA"; ":02FFFE000102FE"; ":020000040001F9";
          ":020000000304F7"; ":00000001FF"].
Proof.
  apply (intel_data_record_bounds (fun _ => true) (IntelHex.new 4)
           (bytes_of [1; 2; 3; 4]) 0xFFFE "out.hex" true
           (mkOutcome true (IntelHex.new 4)
              [":020000040000FA"; ":02FFFE000102FE"; ":020000040001F9";
               ":020000000304F7"; ":00000001FF"])).
  - cbn. lia.
  - reflexivity.
Defined.

(** ** Where each record of the Intel HEX loop lies *)

Lemma u32_add_l (a b : Z) : u32 (u32 a + b) = u32 (a + b).
Proof. unfold u32. apply Zplus_mod_idemp_l. Qed.

Lemma chunk_bounds (bpl rem cur : Z) :
  0 <= bpl -> 0 < rem ->
  let n := Z.min (Z.min bpl rem) (0x10000 - Z.land cur 0xFFFF) in
  0 <= n /\ n <= rem /\ n <= bpl /\ n <= 65536 - cur mod 65536.
Proof.
  intros Hb Hr n. unfold n. rewrite land_FFFF.
  pose proof (Z.mod_pos_bound cur 65536). lia.
Qed.

(** A call made after [pre] was made at [current_address] advanced by
    the bytes [pre] carries, and an extended-address call is followed at
    once by the data call for the same address. *)
Lemma calls_positions (fuel : nat) (bpl : Z) (ext : bool) (data : list byte) :
  0 <= bpl ->
  forall (cur ea off : Z) (cs : list Call),
  0 <= off -> 0 <= cur < 4294967296 ->
  calls fuel bpl ext data cur ea off = Some cs ->
  forall pre c post, cs = (pre ++ c :: post)%list ->
    addr_of c = u32 (cur + carried pre) /\
    (is_ext c = true ->
     exists n d post', post = Data (addr_of c) n d :: post').
Proof.
  intros Hb.
  induction fuel as [|fuel IH]; intros cur ea off cs Ho Hc; cbn [calls];
    destruct (Z.ltb_spec off (size data)) as [Hlt|Hge]; try discriminate;
    try (intros [= <-] pre c post H; destruct pre; discriminate).
  cbv zeta.
  destruct (chunk_bounds bpl (size data - off) cur Hb ltac:(lia)) as (Hn0 & Hn1 & _ & _).
  set (n := Z.min (Z.min bpl (size data - off)) (0x10000 - Z.land cur 0xFFFF)) in *.
  match goal with |- context [calls fuel bpl ext data ?c ?e ?o] =>
    destruct (calls fuel bpl ext data c e o) as [rest|] eqn:E end;
    [|discriminate].
  intros [= <-] pre c post H.
  pose proof (slice_size data off n Ho Hn0 ltac:(lia)) as Hs.
  assert (0 <= off + n) as Hon by lia.
  specialize (IH _ _ _ _ Hon (u32_range (cur + n)) E).
  assert (forall pre', addr_of c = u32 (u32 (cur + n) + carried pre') ->
            addr_of c = u32 (cur + (size (slice data off (off + n)) + carried pre'))) as Hstep.
  { intros pre' ->. rewrite u32_add_l, Hs. f_equal. lia. }
  assert (cur = u32 (cur + 0)) as Hcur0
    by (rewrite Z.add_0_r; symmetry; apply u32_small; exact Hc).
  destruct (ext && negb (Z.shiftr cur 16 =? ea))%bool; cbn [app] in H.
  - destruct pre as [|p0 pre]; cbn [app] in H.
    + injection H as <- <-. cbn [addr_of carried is_ext]. split; [exact Hcur0|].
      intros _. eauto.
    + injection H as <- H. destruct pre as [|p1 pre]; cbn [app] in H.
      * injection H as <- <-. cbn [addr_of carried is_ext].
        split; [exact Hcur0|discriminate].
      * injection H as <- H. destruct (IH _ _ _ H) as [Ha Hx].
        cbn [carried]. split; [apply Hstep; exact Ha|exact Hx].
  - destruct pre as [|p0 pre]; cbn [app] in H.
    + injection H as <- <-. cbn [addr_of carried is_ext].
      split; [exact Hcur0|discriminate].
    + injection H as <- H. destruct (IH _ _ _ H) as [Ha Hx].
      cbn [carried]. split; [apply Hstep; exact Ha|exact Hx].
Qed.

(** With extended addressing disabled the loop only generates data
    records. *)
Lemma calls_disabled (fuel : nat) (bpl : Z) (data : list byte)
    (cur ea off : Z) (cs : list Call) :
  calls fuel bpl false data cur ea off = Some cs ->
  Forall (fun c => is_ext c = false) cs.
Proof.
  revert cur ea off cs.
  induction fuel as [|fuel IH]; intros cur ea off cs; cbn [calls];
    destruct (off <? size data); try discriminate;
    try (intros [= <-]; constructor).
  cbv zeta. cbn [andb].
  match goal with |- context [calls fuel bpl false data ?c ?e ?o] =>
    destruct (calls fuel bpl false data c e o) as [rest|] eqn:E end;
    [|discriminate].
  intros [= <-]. cbn [app]. constructor; [reflexivity|]. eapply IH; exact E.
Qed.

Lemma data_bytes_render (cs : list Call) :
  IntelOut.data_bytes (map render cs) = carried cs.
Proof.
  induction cs as [|c cs IH]; [reflexivity|].
  cbn [map IntelOut.data_bytes]. destruct c as [a|a n d].
  - rewrite parse_render_ext. cbn [Decode.i_type carried].
    change (4 =? IntelHex.DATA_RECORD) with false. cbv iota. exact IH.
  - rewrite parse_render_data. cbn [Decode.i_type Decode.i_payload carried].
    change (0 =? IntelHex.DATA_RECORD) with true. cbv iota.
    rewrite size_map, IH. reflexivity.
Qed.

(** A position in the rendered calls is a position in the calls. *)
Lemma split_rendered (cs : list Call) (pre : list string) (l : string)
    (post : list string) :
  map render cs = (pre ++ l :: post)%list ->
  exists cpre c cpost,
    cs = (cpre ++ c :: cpost)%list /\ pre = map render cpre /\
    l = render c /\ post = map render cpost.
Proof.
  intros H. apply map_eq_app in H. destruct H as (cpre & ctail & -> & <- & H).
  apply map_eq_cons in H. destruct H as (c & cpost & -> & <- & <-).
  exists cpre, c, cpost. repeat split.
Qed.

Lemma address_field_render_data (a n : Z) (d : list byte) (f : Decode.IntelFields) :
  Decode.parse_intel (render (Data a n d)) = Some f ->
  Decode.i_type f = IntelHex.DATA_RECORD /\ Decode.i_address f = a mod 65536.
Proof.
  rewrite parse_render_data. intros [= <-]. split; [reflexivity|].
  unfold Decode.i_address. cbn [Decode.i_addr_hi Decode.i_addr_lo].
  Z.div_mod_to_equations. lia.
Qed.

Lemma slice_skipn (v : list byte) (from n : Z) :
  0 <= from -> 0 <= n ->
  (slice v from (from + n) ++ skipn (Z.to_nat (from + n)) v)%list
  = skipn (Z.to_nat from) v.
Proof.
  intros Hf Hn. unfold slice. replace (from + n - from) with n by lia.
  rewrite Z2Nat.inj_add by lia. rewrite Nat.add_comm, <- skipn_skipn.
  apply firstn_skipn.
Qed.

Lemma payloads_render (cs : list Call) :
  IntelOut.payloads (map render cs) = map byte_val (contents cs).
Proof.
  induction cs as [|c cs IH]; [reflexivity|].
  cbn [map IntelOut.payloads]. destruct c as [a|a n d].
  - rewrite parse_render_ext. cbn [Decode.i_type contents].
    change (4 =? IntelHex.DATA_RECORD) with false. cbv iota. exact IH.
  - rewrite parse_render_data. cbn [Decode.i_type Decode.i_payload contents].
    change (0 =? IntelHex.DATA_RECORD) with true. cbv iota.
    rewrite IH, map_app. reflexivity.
Qed.

(** Together the data records of the loop carry the rest of the
    buffer, and each one carries the bytes of the buffer at the offset
    reached by the records before it. *)
Lemma calls_contents (fuel : nat) (bpl : Z) (ext : bool) (data : list byte) :
  1 <= bpl ->
  forall (cur ea off : Z) (cs : list Call),
  0 <= off ->
  calls fuel bpl ext data cur ea off = Some cs ->
  contents cs = skipn (Z.to_nat off) data /\
  forall pre a n d post, cs = (pre ++ Data a n d :: post)%list ->
    1 <= size d /\
    d = slice data (off + carried pre) (off + carried pre + size d).
Proof.
  intros Hb.
  induction fuel as [|fuel IH]; intros cur ea off cs Ho; cbn [calls];
    destruct (Z.ltb_spec off (size data)) as [Hlt|Hge]; try discriminate;
    try (intros [= <-]; split;
         [cbn [contents]; rewrite skipn_all2 by (unfold size in Hge; lia);
          reflexivity
         |intros pre a n d post H; destruct pre; discriminate]).
  cbv zeta.
  destruct (chunk_bounds bpl (size data - off) cur ltac:(lia) ltac:(lia))
    as (_ & Hn1 & _ & _).
  pose proof (min_chunk_positive bpl (size data - off) cur Hb ltac:(lia)) as Hn0.
  set (n := Z.min (Z.min bpl (size data - off)) (0x10000 - Z.land cur 0xFFFF)) in *.
  match goal with |- context [calls fuel bpl ext data ?c ?e ?o] =>
    destruct (calls fuel bpl ext data c e o) as [rest|] eqn:E end;
    [|discriminate].
  intros [= <-].
  assert (0 <= off + n) as Hon by lia.
  destruct (IH _ _ _ _ Hon E) as [Hc Hp].
  pose proof (slice_size data off n Ho ltac:(lia) ltac:(lia)) as Hs.
  assert (forall pre a m d post,
            (Data cur n (slice data off (off + n)) :: rest
             = pre ++ Data a m d :: post)%list ->
            1 <= size d /\
            d = slice data (off + carried pre) (off + carried pre + size d)) as G.
  { intros pre a m d post H. destruct pre as [|p0 pre]; cbn [app] in H.
    - injection H as <- <- <- <-. cbn [carried]. rewrite Z.add_0_r, Hs.
      split; [lia|reflexivity].
    - injection H as <- H. destruct (Hp _ _ _ _ _ H) as [H1 H2].
      split; [exact H1|]. cbn [carried]. rewrite Hs.
      replace (off + (n + carried pre)) with (off + n + carried pre) by lia.
      exact H2. }
  split.
  - assert (contents (Data cur n (slice data off (off + n)) :: rest)
            = skipn (Z.to_nat off) data) as Hd
      by (cbn [contents]; rewrite Hc; apply slice_skipn; lia).
    destruct (ext && negb (Z.shiftr cur 16 =? ea))%bool; cbn [app contents];
      exact Hd.
  - intros pre a m d post H.
    destruct (ext && negb (Z.shiftr cur 16 =? ea))%bool; cbn [app] in H.
    + destruct pre as [|p0 pre]; cbn [app] in H; [discriminate|].
      injection H as <- H. cbn [carried]. exact (G _ _ _ _ _ H).
    + exact (G _ _ _ _ _ H).
Qed.

(** C10. With extended addressing disabled, [convert_to_hex] succeeds
    (it returns [true] and leaves the error message alone) for every
    buffer and start address.  It writes data records only, then the
    end-of-file record; the data records carry the whole buffer, in
    order; each one carries the bytes of the buffer at the offset
    reached by the records before it, at least one byte, and its
    address field is the current 32-bit address, [start_address] plus
    that offset, reduced modulo [2^16]. *)
Theorem intel_disabled_truncates_addresses
    (is_open : string -> bool) (self : IntelHex.IntelHexConverter)
    (binary_data : list byte) (start_address : Z) (output_file : string) :
  is_open output_file = true ->
  1 <= IntelHex.bytes_per_line_ self ->
  0 <= start_address < 2 ^ 32 ->
  exists lines,
    IntelHex.convert_to_hex is_open self binary_data start_address output_file
      false = Some (mkOutcome true self (lines ++ [":00000001FF"])%list) /\
    IntelOut.payloads lines = map byte_val binary_data /\
    forall pre line post, lines = (pre ++ line :: post)%list ->
      exists f, Decode.parse_intel line = Some f /\
        Decode.i_type f = IntelHex.DATA_RECORD /\
        1 <= size (Decode.i_payload f) /\
        Decode.i_payload f =
        map byte_val
          (slice binary_data (IntelOut.data_bytes pre)
             (IntelOut.data_bytes pre + size (Decode.i_payload f))) /\
        Decode.i_address f =
        u32 (start_address + IntelOut.data_bytes pre) mod 2 ^ 16.
Proof.
  intros Ho Hb Hs.
  rewrite convert_to_hex_calls by exact Ho.
  destruct (calls_terminates (List.length binary_data)
              (IntelHex.bytes_per_line_ self) false binary_data start_address
              0xFFFFFFFF 0 Hb) as [cs E]; [unfold size; lia|].
  rewrite E. exists (map render cs).
  destruct (calls_contents _ _ _ _ Hb _ _ _ _ (Z.le_refl 0) E) as [Hc Hp].
  split; [reflexivity|]. split.
  - rewrite payloads_render, Hc. reflexivity.
  - intros pre line post H.
    destruct (split_rendered _ _ _ _ H) as (cpre & c & cpost & Hcs & -> & -> & _).
    pose proof (calls_disabled _ _ _ _ _ _ _ E) as D.
    rewrite Hcs in D. apply Forall_app in D. destruct D as [_ D].
    inversion D as [|? ? Dc _]; subst.
    assert (0 <= IntelHex.bytes_per_line_ self) as Hb0 by lia.
    destruct (calls_positions _ _ _ _ Hb0 _ _ _ _ (Z.le_refl 0) Hs E _ _ _ eq_refl)
      as [Ha _].
    destruct c as [a|a n d]; [discriminate Dc|]. cbn [addr_of] in Ha.
    destruct (Hp _ _ _ _ _ eq_refl) as [Hd1 Hd2]. rewrite Z.add_0_l in Hd2.
    eexists. split; [apply parse_render_data|].
    destruct (address_field_render_data a n d _ (parse_render_data a n d)) as [Ht Hf].
    split; [exact Ht|]. cbn [Decode.i_payload].
    rewrite size_map, data_bytes_render.
    split; [exact Hd1|]. split; [f_equal; exact Hd2|].
    rewrite Hf, Ha. reflexivity.
Qed.

Lemma intel_disabled_truncates_addresses_witness :
  exists lines,
    IntelHex.convert_to_hex (fun _ => true) (IntelHex.new 16)
      (bytes_of [1; 2; 3]) 0x1FFFE "out.hex" false
    = Some (mkOutcome true (IntelHex.new 16) (lines ++ [":00000001FF"])%list) /\
    IntelOut.payloads lines = map byte_val (bytes_of [1; 2; 3]) /\
    forall pre line post, lines = (pre ++ line :: post)%list ->
      exists f, Decode.parse_intel line = Some f /\
        Decode.i_type f = IntelHex.DATA_RECORD /\
        1 <= size (Decode.i_payload f) /\
        Decode.i_payload f =
        map byte_val
          (slice (bytes_of [1; 2; 3]) (IntelOut.data_bytes pre)
             (IntelOut.data_bytes pre + size (Decode.i_payload f))) /\
        Decode.i_address f = u32 (0x1FFFE + IntelOut.data_bytes pre) mod 2 ^ 16.
Proof.
  apply (intel_disabled_truncates_addresses (fun _ => true) (IntelHex.new 16)
           (bytes_of [1; 2; 3]) 0x1FFFE "out.hex").
  - reflexivity.
  - cbn. lia.
  - lia.
Defined.

(** C2 (as stated). The line [":0400000001020304F6"] is not written for
    the buffer 01 02 03 04 at address 0 with four bytes per line,
    whether extended addressing is enabled or not. *)
Lemma intel_example_not_F6 :
  option_map written
    (IntelHex.convert_to_hex (fun _ => true) (IntelHex.new 4)
       (bytes_of [1; 2; 3; 4]) 0 "out.hex" false)
  <> Some [":0400000001020304F6"; ":00000001FF"] /\
  option_map written
    (IntelHex.convert_to_hex (fun _ => true) (IntelHex.new 4)
       (bytes_of [1; 2; 3; 4]) 0 "out.hex" true)
  <> Some [":0400000001020304F6"; ":00000001FF"].
Proof. split; vm_compute; discriminate. Qed.

(** C2 (amended). For the buffer 01 02 03 04 at address 0 with four
    bytes per line, [convert_to_hex] writes [":0400000001020304F2"]
    then [":00000001FF"]; with extended addressing enabled the line
    [":020000040000FA"] comes first. *)
Theorem intel_example_output (output_file : string) :
  IntelHex.convert_to_hex (fun _ => true) (IntelHex.new 4)
    (bytes_of [1; 2; 3; 4]) 0 output_file false
  = Some (mkOutcome true (IntelHex.new 4)
            [":0400000001020304F2"; ":00000001FF"]) /\
  IntelHex.convert_to_hex (fun _ => true) (IntelHex.new 4)
    (bytes_of [1; 2; 3; 4]) 0 output_file true
  = Some (mkOutcome true (IntelHex.new 4)
            [":020000040000FA"; ":0400000001020304F2"; ":00000001FF"]).
Proof. split; reflexivity. Qed.

(** ** Extended linear address records *)

Lemma calls_done (fuel : nat) (bpl : Z) (ext : bool) (data : list byte)
    (cur ea off : Z) :
  size data <= off -> calls fuel bpl ext data cur ea off = Some [].
Proof.
  intros H. destruct fuel; cbn [calls];
    destruct (Z.ltb_spec off (size data)); try lia; reflexivity.
Qed.

(** The number of extended-address records generated from a state of
    the loop: one at once if the page of [cur] is not the tracked one,
    then one for each further page reached. *)
Lemma calls_ext_count (fuel : nat) (bpl : Z) (data : list byte) :
  1 <= bpl ->
  forall (cur ea off : Z) (cs : list Call),
  0 <= off -> off < size data -> 0 <= cur ->
  cur + (size data - off) <= 4294967296 ->
  calls fuel bpl true data cur ea off = Some cs ->
  Z.of_nat (List.length (filter is_ext cs)) =
  (if cur / 65536 =? ea then 0 else 1)
  + (cur + (size data - off) - 1) / 65536 - cur / 65536.
Proof.
  intros Hb.
  induction fuel as [|fuel IH]; intros cur ea off cs Ho Hlt Hc Hw; cbn [calls];
    destruct (Z.ltb_spec off (size data)) as [_|Hge]; try lia; try discriminate.
  cbv zeta. rewrite shiftr_16. cbn [andb].
  destruct (chunk_bounds bpl (size data - off) cur ltac:(lia) ltac:(lia))
    as (_ & Hn1 & _ & Hn3).
  pose proof (min_chunk_positive bpl (size data - off) cur Hb ltac:(lia)) as Hn0.
  set (n := Z.min (Z.min bpl (size data - off)) (0x10000 - Z.land cur 0xFFFF)) in *.
  assert ((if negb (cur / 65536 =? ea) then cur / 65536 else ea) = cur / 65536) as Eea
    by (destruct (Z.eqb_spec (cur / 65536) ea); cbn [negb]; congruence).
  rewrite Eea.
  destruct (Z.lt_ge_cases (off + n) (size data)) as [Hmore|Hlast].
  - rewrite (u32_small (cur + n)) by lia.
    destruct (calls fuel bpl true data (cur + n) (cur / 65536) (off + n))
      as [rest|] eqn:E; [|discriminate].
    intros [= <-].
    assert (0 <= off + n) as H1 by lia.
    assert (0 <= cur + n) as H2 by lia.
    assert (cur + n + (size data - (off + n)) <= 4294967296) as H3 by lia.
    specialize (IH _ _ _ _ H1 Hmore H2 H3 E).
    rewrite filter_app, length_app. cbn [filter is_ext].
    rewrite Nat2Z.inj_add, IH.
    replace (cur + n + (size data - (off + n)) - 1)
      with (cur + (size data - off) - 1) by lia.
    assert (Z.of_nat
              (List.length
                 (filter is_ext
                    (if negb (cur / 65536 =? ea) then [Ext cur] else [])))
            = if cur / 65536 =? ea then 0 else 1) as E1
      by (destruct (cur / 65536 =? ea); reflexivity).
    rewrite E1.
    destruct (Z.eqb_spec ((cur + n) / 65536) (cur / 65536)) as [Hq|Hq];
      destruct (cur / 65536 =? ea);
      revert Hq; Z.div_mod_to_equations; lia.
  - rewrite calls_done by lia. intros [= <-].
    rewrite filter_app, length_app. cbn [filter is_ext List.length].
    rewrite Nat.add_0_r.
    assert (size data - off = n) as En by lia. rewrite En.
    assert ((cur + n - 1) / 65536 = cur / 65536) as Ep
      by (Z.div_mod_to_equations; lia).
    rewrite Ep.
    destruct (cur / 65536 =? ea); cbn [negb filter is_ext List.length]; lia.
Qed.

(** An extended-address record is either the first call of the loop,
    made because the page of [cur] is not the tracked one, or it is
    made at the first address of a page. *)
Lemma calls_ext_aligned (fuel : nat) (bpl : Z) (data : list byte) :
  0 <= bpl ->
  forall (cur ea off : Z) (cs : list Call),
  0 <= cur < 4294967296 ->
  calls fuel bpl true data cur ea off = Some cs ->
  forall pre a post, cs = (pre ++ Ext a :: post)%list ->
    (pre = [] /\ a = cur /\ a / 65536 <> ea) \/
    (pre <> [] /\ a mod 65536 = 0).
Proof.
  intros Hb.
  induction fuel as [|fuel IH]; intros cur ea off cs Hc; cbn [calls];
    destruct (Z.ltb_spec off (size data)) as [Hlt|Hge]; try discriminate;
    try (intros [= <-] pre a post H; destruct pre; discriminate).
  cbv zeta. rewrite shiftr_16. cbn [andb].
  destruct (chunk_bounds bpl (size data - off) cur Hb ltac:(lia))
    as (Hn0 & _ & _ & Hn3).
  set (n := Z.min (Z.min bpl (size data - off)) (0x10000 - Z.land cur 0xFFFF)) in *.
  assert (u32 (cur + n) / 65536 <> cur / 65536 -> u32 (cur + n) mod 65536 = 0) as Hal.
  { unfold u32. change (2 ^ 32) with 4294967296.
    Z.div_mod_to_equations. lia. }
  match goal with |- context [calls fuel bpl true data ?c ?e ?o] =>
    destruct (calls fuel bpl true data c e o) as [rest|] eqn:E end;
    [|discriminate].
  intros [= <-] pre a post H.
  specialize (IH _ _ _ _ (u32_range (cur + n)) E).
  destruct (Z.eqb_spec (cur / 65536) ea) as [Hea|Hea]; cbn [negb app] in *.
  - destruct pre as [|p0 pre]; cbn [app] in H; [discriminate|].
    injection H as <- H. right. split; [discriminate|].
    destruct (IH _ _ _ H) as [(_ & -> & Hne)|(_ & Hz)]; [|exact Hz].
    apply Hal. congruence.
  - destruct pre as [|p0 pre]; cbn [app] in H.
    + injection H as <- <-. left. repeat split. exact Hea.
    + injection H as <- H. right. split; [discriminate|].
      destruct pre as [|p1 pre]; cbn [app] in H; [discriminate|].
      injection H as <- H.
      destruct (IH _ _ _ H) as [(_ & -> & Hne)|(_ & Hz)]; [|exact Hz].
      apply Hal. exact Hne.
Qed.

Lemma has_type_ext_render (c : Call) : IntelOut.has_type 4 (render c) = is_ext c.
Proof.
  unfold IntelOut.has_type, IntelOut.line_type. destruct c as [a|a n d].
  - rewrite parse_render_ext. reflexivity.
  - rewrite parse_render_data. reflexivity.
Qed.

Lemma count_ext_render (cs : list Call) :
  IntelOut.count_type 4 (map render cs ++ [eof_line]) =
  List.length (filter is_ext cs).
Proof.
  unfold IntelOut.count_type. rewrite filter_app, length_app.
  change (filter (IntelOut.has_type 4) [eof_line]) with (@nil string).
  cbn [List.length]. rewrite Nat.add_0_r.
  induction cs as [|c cs IH]; [reflexivity|].
  cbn [map filter]. rewrite has_type_ext_render.
  destruct (is_ext c); cbn [List.length]; rewrite IH; reflexivity.
Qed.

Lemma split_rendered_eof (cs : list Call) (e : string) (pre : list string)
    (l : string) (post : list string) :
  (map render cs ++ [e])%list = (pre ++ l :: post)%list ->
  (exists cpre c cpost,
     cs = (cpre ++ c :: cpost)%list /\ pre = map render cpre /\
     l = render c /\ post = (map render cpost ++ [e])%list) \/
  (pre = map render cs /\ l = e /\ post = []).
Proof.
  revert pre. induction cs as [|c cs IH]; intros pre H; cbn [map app] in H.
  - destruct pre as [|x pre]; cbn [app] in H.
    + injection H as <- <-. right. repeat split.
    + injection H as _ H. destruct pre; discriminate.
  - destruct pre as [|x pre]; cbn [app] in H.
    + injection H as <- <-. left. exists [], c, cs. repeat split.
    + injection H as <- H. destruct (IH _ H) as [(cpre & c' & cpost & -> & -> & -> & ->)|(-> & -> & ->)].
      * left. exists (c :: cpre), c', cpost. repeat split.
      * right. repeat split.
Qed.

Lemma calls_first_ext (fuel : nat) (bpl : Z) (data : list byte)
    (cur ea off : Z) (cs : list Call) :
  off < size data -> cur / 65536 <> ea ->
  calls fuel bpl true data cur ea off = Some cs ->
  exists rest, cs = Ext cur :: rest.
Proof.
  intros Hlt Hne. destruct fuel; cbn [calls];
    destruct (Z.ltb_spec off (size data)); try lia; try discriminate.
  cbv zeta. rewrite shiftr_16. cbn [andb].
  destruct (Z.eqb_spec (cur / 65536) ea) as [|_]; [contradiction|]. cbn [negb].
  match goal with |- context [calls fuel bpl true data ?c ?e ?o] =>
    destruct (calls fuel bpl true data c e o) as [rest|] end; [|discriminate].
  intros [= <-]. cbn [app]. eauto.
Qed.

(** With extended addressing disabled no extended-address record is
    written, whatever the buffer and the start address. *)
Lemma intel_disabled_no_ext
    (is_open : string -> bool) (self : IntelHex.IntelHexConverter)
    (binary_data : list byte) (start_address : Z) (output_file : string)
    (r : Outcome IntelHex.IntelHexConverter) :
  IntelHex.convert_to_hex is_open self binary_data start_address output_file
    false = Some r ->
  IntelOut.count_type IntelHex.EXTENDED_LINEAR_ADDRESS (written r) = 0%nat.
Proof.
  change IntelHex.EXTENDED_LINEAR_ADDRESS with 4.
  destruct (is_open output_file) eqn:Ho.
  - rewrite convert_to_hex_calls by exact Ho.
    destruct (calls _ _ _ _ _ _ _) as [cs|] eqn:E; [|discriminate].
    intros [= <-]. cbn [written]. rewrite count_ext_render.
    pose proof (calls_disabled _ _ _ _ _ _ _ E) as D.
    clear E. induction D as [|c cs Hc _ IH]; [reflexivity|].
    cbn [filter]. rewrite Hc. exact IH.
  - rewrite convert_to_hex_closed by exact Ho. intros [= <-]. reflexivity.
Qed.

(** C3 (amended). With extended addressing enabled, a non-empty buffer
    whose addresses lie in two consecutive 64 KiB pages (as 32 bytes at
    [0xFFF0]) gets exactly two extended-linear-address records: the
    first line of the file, written before the first data record, and
    one directly before the data record that starts the second page.
    Each such record carries the upper half of the address of the data
    record that follows it.  With extended addressing disabled no such
    record is written, for every buffer and start address. *)
Theorem intel_extended_address_records
    (is_open : string -> bool) (self : IntelHex.IntelHexConverter)
    (binary_data : list byte) (start_address : Z) (output_file : string) :
 (is_open output_file = true ->
  1 <= IntelHex.bytes_per_line_ self ->
  0 <= start_address -> 0 < size binary_data ->
  start_address + size binary_data <= 2 ^ 32 ->
  (start_address + size binary_data - 1) / 65536 = start_address / 65536 + 1 ->
  exists r,
    IntelHex.convert_to_hex is_open self binary_data start_address output_file
      true = Some r /\
    IntelOut.count_type IntelHex.EXTENDED_LINEAR_ADDRESS (written r) = 2%nat /\
    (exists first rest,
       written r = first :: rest /\
       IntelOut.has_type IntelHex.EXTENDED_LINEAR_ADDRESS first = true) /\
    (forall pre line post,
       written r = (pre ++ line :: post)%list ->
       IntelOut.has_type IntelHex.EXTENDED_LINEAR_ADDRESS line = true ->
       exists fl d fd post',
         Decode.parse_intel line = Some fl /\ post = d :: post' /\
         Decode.parse_intel d = Some fd /\
         Decode.i_type fd = IntelHex.DATA_RECORD /\
         Decode.big_endian (Decode.i_payload fl) =
           u32 (start_address + IntelOut.data_bytes pre) / 65536 /\
         Decode.i_address fd =
           u32 (start_address + IntelOut.data_bytes pre) mod 65536 /\
         (pre = [] \/ Decode.i_address fd = 0))) /\
 (forall r,
    IntelHex.convert_to_hex is_open self binary_data start_address output_file
      false = Some r ->
    IntelOut.count_type IntelHex.EXTENDED_LINEAR_ADDRESS (written r) = 0%nat).
Proof.
  split; [|apply intel_disabled_no_ext].
  intros Ho Hb Hs Hd Hw Hp. change (2 ^ 32) with 4294967296 in Hw.
  change IntelHex.EXTENDED_LINEAR_ADDRESS with 4.
  rewrite convert_to_hex_calls by exact Ho.
  destruct (calls_terminates (List.length binary_data)
              (IntelHex.bytes_per_line_ self) true binary_data start_address
              0xFFFFFFFF 0 Hb) as [cs E]; [unfold size; lia|].
  rewrite E. eexists. split; [reflexivity|]. cbn [written].
  assert (start_address / 65536 <> 0xFFFFFFFF) as Hne
    by (Z.div_mod_to_equations; lia).
  assert (0 <= IntelHex.bytes_per_line_ self) as Hb0 by lia.
  assert (0 <= start_address < 4294967296) as Hr by lia.
  split; [|split].
  - rewrite count_ext_render. apply Nat2Z.inj.
    rewrite (calls_ext_count _ _ _ Hb _ _ _ _ (Z.le_refl 0) Hd Hs ltac:(lia) E).
    destruct (Z.eqb_spec (start_address / 65536) 0xFFFFFFFF) as [|_]; [contradiction|].
    rewrite Z.sub_0_r, Hp. lia.
  - destruct (calls_first_ext _ _ _ _ _ _ _ Hd Hne E) as [rest ->].
    cbn [map app]. eexists. eexists. split; [reflexivity|].
    apply (has_type_ext_render (Ext start_address)).
  - intros pre line post H Ht.
    destruct (split_rendered_eof _ _ _ _ _ H)
      as [(cpre & c & cpost & Hcs & -> & -> & ->)|(_ & -> & _)];
      [|discriminate Ht].
    rewrite has_type_ext_render in Ht.
    destruct (calls_positions _ _ _ _ Hb0 _ _ _ _ (Z.le_refl 0) Hr E _ _ _ Hcs)
      as [Ha Hx].
    destruct (Hx Ht) as (n & d & post' & ->).
    destruct c as [a|]; [|discriminate Ht]. cbn [addr_of] in *.
    rewrite data_bytes_render, <- Ha.
    pose proof (u32_range (start_address + carried cpre)) as Har.
    rewrite <- Ha in Har.
    destruct (address_field_render_data a n d _ (parse_render_data a n d))
      as [Hty Haf].
    exists (Decode.mkIntel 2 0 0 4
              [u16 (Z.shiftr a 16) / 256; u16 (Z.shiftr a 16) mod 256]
              (IntelHex.calculate_checksum 2 0 IntelHex.EXTENDED_LINEAR_ADDRESS
                 [byte_of_Z (u8 (Z.shiftr (u16 (Z.shiftr a 16)) 8));
                  byte_of_Z (u8 (Z.land (u16 (Z.shiftr a 16)) 0xFF))])).
    eexists. eexists. eexists.
    split; [apply parse_render_ext|].
    split; [reflexivity|].
    split; [apply parse_render_data|].
    split; [exact Hty|].
    split; [|split; [exact Haf|]].
    + cbn [Decode.i_payload]. unfold Decode.big_endian. cbn [fold_left].
      rewrite shiftr_16. unfold u16. change (2 ^ 16) with 65536.
      Z.div_mod_to_equations. lia.
    + rewrite Haf.
      destruct (calls_ext_aligned _ _ _ Hb0 _ _ _ _ Hr E _ _ _ Hcs)
        as [(-> & _)|(_ & Hz)]; [left; reflexivity|right; exact Hz].
Qed.


Lemma intel_extended_address_records_witness :
  (exists r,
    IntelHex.convert_to_hex (fun _ => true) (IntelHex.new 32)
      (bytes_of (repeat 0xAB 32)) 0xFFF0 "out.hex" true = Some r /\
    IntelOut.count_type IntelHex.EXTENDED_LINEAR_ADDRESS (written r) = 2%nat) /\
  IntelOut.count_type IntelHex.EXTENDED_LINEAR_ADDRESS
    [":10FFF000ABABABABABABABABABABABABABABABAB51";
     ":10000000ABABABABABABABABABABABABABABABAB40"; ":00000001FF"] = 0%nat.
Proof.
  pose proof (intel_extended_address_records (fun _ => true) (IntelHex.new 32)
                (bytes_of (repeat 0xAB 32)) 0xFFF0 "out.hex") as [A B].
  split.
  - destruct A as (r & E & C & _).
    + reflexivity.
    + cbn. lia.
    + lia.
    + reflexivity.
    + vm_compute. discriminate.
    + reflexivity.
    + exists r. split; [exact E|exact C].
  - apply (B (mkOutcome true (IntelHex.new 32)
                [":10FFF000ABABABABABABABABABABABABABABABAB51";
                 ":10000000ABABABABABABABABABABABABABABABAB40"; ":00000001FF"])).
    reflexivity.
Defined.

(** C3 (as stated). For 32 bytes at [0x0000FFF0] with extended
    addressing enabled the file holds two extended-linear-address
    records, not one: [":020000040000FA"] comes first, before the data
    record of the first page. *)
Lemma intel_straddle_not_one_ext :
  option_map written
    (IntelHex.convert_to_hex (fun _ => true) (IntelHex.new 32)
       (bytes_of (repeat 0xAB 32)) 0xFFF0 "out.hex" true)
  = Some [":020000040000FA";
          ":10FFF000ABABABABABABABABABABABABABABABAB51";
          ":020000040001F9";
          ":10000000ABABABABABABABABABABABABABABABAB40";
          ":00000001FF"] /\
  option_map (fun r => IntelOut.count_type IntelHex.EXTENDED_LINEAR_ADDRESS (written r))
    (IntelHex.convert_to_hex (fun _ => true) (IntelHex.new 32)
       (bytes_of (repeat 0xAB 32)) 0xFFF0 "out.hex" true)
  <> Some 1%nat.
Proof. split; [reflexivity|vm_compute; discriminate]. Qed.

(** ** One S-Record *)

Lemma srec_type_digit (type : SRecord.RecordType) :
  exists c, SRecord.to_string (SRecord.int_of_type type) = String c EmptyString /\
            Decode.hex_digit c = Some (SRecord.int_of_type type).
Proof. destruct type; eexists; split; reflexivity. Qed.

Lemma srec_address_field_length (type : SRecord.RecordType) (address : Z) :
  List.length (SOut.address_field type address) =
  Decode.address_bytes (SRecord.int_of_type type) /\
  Z.of_nat (List.length (SOut.address_field type address)) =
  SRecord.get_address_bytes type.
Proof. destruct type; split; reflexivity. Qed.

Lemma srec_address_field_range (type : SRecord.RecordType) (address : Z) :
  Forall (fun v => 0 <= v < 256) (SOut.address_field type address).
Proof.
  destruct type; unfold SOut.address_field; cbn;
    repeat (constructor; [apply u8_range|]); constructor.
Qed.

Lemma srec_generate_record_text (type : SRecord.RecordType) (address : Z)
    (data : list byte) :
  let byte_count := u8 (SRecord.get_address_bytes type + size data + 1) in
  SRecord.generate_record type address data =
  "S" ++ SRecord.to_string (SRecord.int_of_type type)
      ++ hexes ([byte_count] ++ SOut.address_field type address
                ++ map byte_val data
                ++ [SRecord.calculate_checksum byte_count address
                      (SRecord.get_address_bytes type) data]).
Proof.
  intros byte_count. unfold SRecord.generate_record. cbv zeta.
  fold byte_count. rewrite append_data_hex_spec.
  destruct type; cbn [SRecord.get_address_bytes Z.leb Z.compare Pos.compare
                      Pos.compare_cont];
    unfold SOut.address_field;
    cbn [SRecord.get_address_bytes Z.leb Z.compare Pos.compare Pos.compare_cont];
    rewrite !hexes_app; cbn [hexes app];
    rewrite !string_app_assoc, ?string_app_empty; reflexivity.
Qed.

Lemma srec_parse_generate (type : SRecord.RecordType) (address : Z)
    (data : list byte) :
  Decode.parse_srec (SRecord.generate_record type address data) =
  Some (Decode.mkS (SRecord.int_of_type type)
          (u8 (SRecord.get_address_bytes type + size data + 1))
          (SOut.address_field type address)
          (map byte_val data)
          (SRecord.calculate_checksum
             (u8 (SRecord.get_address_bytes type + size data + 1)) address
             (SRecord.get_address_bytes type) data)).
Proof.
  rewrite srec_generate_record_text. cbv zeta.
  destruct (srec_type_digit type) as (c & -> & Hc).
  cbn [String.append Decode.parse_srec].
  change (Ascii.eqb "S" "S") with true. cbv iota. rewrite Hc.
  rewrite hex_bytes_hexes.
  - cbn [app]. rewrite app_assoc, split_last_snoc.
    destruct (srec_address_field_length type address) as [Hl _].
    rewrite <- Hl, length_app.
    assert ((List.length (SOut.address_field type address)
             <=? List.length (SOut.address_field type address)
                 + List.length (map byte_val data))%nat = true) as Hle
      by (apply Nat.leb_le; lia).
    rewrite Hle.
    rewrite firstn_app, Nat.sub_diag, firstn_all, firstn_O, app_nil_r.
    rewrite skipn_app, Nat.sub_diag, skipn_all, skipn_O. reflexivity.
  - cbn [app]. constructor; [apply u8_range|].
    apply Forall_app. split; [apply srec_address_field_range|].
    apply Forall_app. split; [apply Forall_byte_val|].
    constructor; [|constructor]. unfold SRecord.calculate_checksum. apply u8_range.
Qed.

Lemma land_lxor_complement (s : Z) :
  Z.land (Z.lxor s 0xFFFFFFFF) 0xFF = Z.land (Z.lnot s) 0xFF.
Proof.
  change 0xFFFFFFFF with (Z.ones 32). change 0xFF with (Z.ones 8).
  apply Z.bits_inj'. intros n Hn.
  rewrite !Z.land_spec, Z.lxor_spec, Z.lnot_spec by exact Hn.
  destruct (Z.ltb_spec n 8) as [Hlt|Hge].
  - rewrite !Z.ones_spec_low by lia. rewrite xorb_true_r. reflexivity.
  - rewrite (Z.ones_spec_high 8) by lia. rewrite !andb_false_r. reflexivity.
Qed.

Lemma land_lnot_mod (a b : Z) :
  a mod 256 = b mod 256 -> Z.land (Z.lnot a) 0xFF = Z.land (Z.lnot b) 0xFF.
Proof.
  intros H. rewrite !land_FF. unfold Z.lnot.
  revert H. Z.div_mod_to_equations. lia.
Qed.

(** Replace each 32-bit reduction by a variable known modulo 256. *)
Ltac forget_u32 :=
  repeat match goal with
         | |- context [u32 ?e] =>
           let H := fresh "Hu" in
           let v := fresh "v" in
           pose proof (u32_mod_256 e) as H; set (v := u32 e) in *; clearbody v
         | H0 : context [u32 ?e] |- _ =>
           let H := fresh "Hu" in
           let v := fresh "v" in
           pose proof (u32_mod_256 e) as H; set (v := u32 e) in *; clearbody v
         end.

Lemma srec_calculate_checksum_spec (type : SRecord.RecordType)
    (byte_count address : Z) (data : list byte) :
  SRecord.calculate_checksum byte_count address
    (SRecord.get_address_bytes type) data =
  Z.land (Z.lnot (byte_count + Decode.total (SOut.address_field type address)
                  + Decode.total (map byte_val data))) 0xFF.
Proof.
  unfold SRecord.calculate_checksum. cbv zeta.
  rewrite land_lxor_complement.
  rewrite u8_small by (rewrite land_FF; apply Z.mod_pos_bound; lia).
  apply land_lnot_mod. rewrite sum_loop_mod_256.
  rewrite (Z.add_mod _ (Decode.total (map byte_val data))) by lia.
  rewrite (Z.add_mod (_ + _) (Decode.total (map byte_val data))) by lia.
  f_equal. f_equal.
  rewrite !land_FF.
  destruct type;
    cbn [SRecord.get_address_bytes Z.leb Z.compare Pos.compare Pos.compare_cont];
    unfold SOut.address_field;
    cbn [SRecord.get_address_bytes Z.leb Z.compare Pos.compare Pos.compare_cont
         app Decode.total fold_right];
    rewrite ?land_FF; unfold u8; change (2 ^ 8) with 256;
    forget_u32; Z.div_mod_to_equations; lia.
Qed.

(** ** The S-Record loop *)

Lemma get_address_bytes_range (type : SRecord.RecordType) :
  2 <= SRecord.get_address_bytes type <= 4.
Proof. destruct type; cbn; lia. Qed.

(** A property of the lines that holds of every record whose payload
    fits the byte-count field is kept by the loop. *)
Lemma srec_loop_forall (P : string -> Prop) (fuel : nat) (bpl : Z)
    (type : SRecord.RecordType) (data : list byte) :
  (forall addr d, size d <= 255 - SRecord.get_address_bytes type - 1 ->
                  P (SRecord.generate_record type addr d)) ->
  forall out cur off rc res,
    Forall P out ->
    SRecord.write_data_records fuel bpl type data out cur off rc = Some res ->
    Forall P (fst res).
Proof.
  intros HP.
  induction fuel as [|fuel IH]; intros out cur off rc res Hout;
    cbn [SRecord.write_data_records];
    destruct (off <? size data); try discriminate;
    try (intros [= <-]; exact Hout).
  cbv zeta. apply IH. apply Forall_app. split; [exact Hout|].
  constructor; [|constructor]. apply HP.
  pose proof (get_address_bytes_range type).
  match goal with |- size (slice data off (off + ?n)) <= _ =>
    pose proof (slice_size_le data off n) end.
  lia.
Qed.

Lemma srec_loop_terminates (fuel : nat) (bpl : Z) (type : SRecord.RecordType)
    (data : list byte) (out : list string) (cur off rc : Z) :
  1 <= bpl -> size data - off <= Z.of_nat fuel ->
  exists res, SRecord.write_data_records fuel bpl type data out cur off rc = Some res.
Proof.
  intros Hb. revert out cur off rc.
  induction fuel as [|fuel IH]; intros out cur off rc Hf;
    cbn [SRecord.write_data_records];
    destruct (Z.ltb_spec off (size data)) as [Hlt|Hge]; try (eexists; reflexivity).
  - lia.
  - cbv zeta. apply IH. pose proof (get_address_bytes_range type). lia.
Qed.

Lemma srec_loop_diverges (fuel : nat) (bpl : Z) (type : SRecord.RecordType)
    (data : list byte) (out : list string) (cur off rc : Z) :
  bpl <= 0 -> off < size data ->
  SRecord.write_data_records fuel bpl type data out cur off rc = None.
Proof.
  intros Hb. revert out cur off rc.
  induction fuel as [|fuel IH]; intros out cur off rc Hlt;
    cbn [SRecord.write_data_records];
    destruct (Z.ltb_spec off (size data)) as [_|Hge]; try lia; [reflexivity|].
  cbv zeta. apply IH. lia.
Qed.

Lemma srec_loop_empty (fuel : nat) (bpl : Z) (type : SRecord.RecordType)
    (out : list string) (cur rc : Z) :
  SRecord.write_data_records fuel bpl type [] out cur 0 rc = Some (out, rc).
Proof. destruct fuel; reflexivity. Qed.

Lemma convert_to_srec_forall (P : string -> Prop) (is_open : string -> bool)
    (self : SRecord.SRecordConverter) (data : list byte) (start : Z)
    (file : string) (address_size : Z) (header : string)
    (r : Outcome SRecord.SRecordConverter) :
  (forall type addr d, size d <= 255 - SRecord.get_address_bytes type - 1 ->
                       P (SRecord.generate_record type addr d)) ->
  (header <> "" ->
   P (SRecord.generate_record SRecord.S0_HEADER 0 (list_byte_of_string header))) ->
  SRecord.convert_to_srec is_open self data start file address_size header = Some r ->
  Forall P (written r).
Proof.
  intros HP Hh. unfold SRecord.convert_to_srec.
  destruct (negb (is_open file)); [intros [= <-]; constructor|].
  destruct (negb (address_size =? 16) && negb (address_size =? 24)
            && negb (address_size =? 32))%bool; [intros [= <-]; constructor|].
  cbv zeta.
  match goal with |- context [SRecord.write_data_records ?f ?b ?t ?d ?o ?c ?x ?y] =>
    destruct (SRecord.write_data_records f b t d o c x y) as [[out rc]|] eqn:E;
    [|discriminate];
    assert (Forall P o) as Ho
  end.
  { destruct header as [|c h]; cbn [String.length Nat.eqb negb]; [constructor|].
    cbn [app]. constructor; [|constructor]. apply Hh. discriminate. }
  pose proof (srec_loop_forall P _ _ _ _ (HP _) _ _ _ _ _ Ho E) as Hout.
  cbn [fst] in Hout.
  intros [= <-]. cbn [written]. apply Forall_app. split.
  - destruct (rc <=? 0xFFFF); [|exact Hout].
    apply Forall_app. split; [exact Hout|]. constructor; [|constructor].
    apply HP. cbn. lia.
  - constructor; [|constructor]. apply HP.
    pose proof (get_address_bytes_range (SRecord.get_end_record_type address_size)).
    change (size (@nil byte)) with 0. lia.
Qed.

(** The conversion returns whenever the line width is at least one. *)
Lemma convert_to_srec_returns (is_open : string -> bool)
    (self : SRecord.SRecordConverter) (data : list byte) (start : Z)
    (file : string) (address_size : Z) (header : string) :
  1 <= SRecord.bytes_per_line_ self ->
  exists r,
    SRecord.convert_to_srec is_open self data start file address_size header = Some r.
Proof.
  intros Hb. unfold SRecord.convert_to_srec.
  destruct (negb (is_open file)); [eexists; reflexivity|].
  destruct (negb (address_size =? 16) && negb (address_size =? 24)
            && negb (address_size =? 32))%bool; [eexists; reflexivity|].
  cbv zeta.
  match goal with |- context [SRecord.write_data_records ?f ?b ?t ?d ?o ?c ?x ?y] =>
    destruct (srec_loop_terminates f b t d o c x y Hb) as [[out rc] E];
    [unfold size; lia|rewrite E]
  end.
  eexists; reflexivity.
Qed.

(** ** Claims about the S-Record encoder *)

(** C5. In every record written by [convert_to_srec] (header, data,
    count and end records), the checksum byte read from the line is the
    one's complement, [~S & 0xFF], of the sum [S] of the byte-count
    field, the address bytes present for the record's type (two, three
    or four of them) and every payload byte. *)
Theorem srec_checksum_every_record
    (is_open : string -> bool) (self : SRecord.SRecordConverter)
    (binary_data : list byte) (start_address : Z) (output_file : string)
    (address_size : Z) (header : string) (r : Outcome SRecord.SRecordConverter) :
  SRecord.convert_to_srec is_open self binary_data start_address output_file
    address_size header = Some r ->
  Forall (fun line =>
            exists f, Decode.parse_srec line = Some f /\
              List.length (Decode.s_address f) = Decode.address_bytes (Decode.s_type f) /\
              Decode.s_checksum f =
              Z.land (Z.lnot (Decode.s_count f + Decode.total (Decode.s_address f)
                              + Decode.total (Decode.s_payload f))) 0xFF)
         (written r).
Proof.
  assert (forall type addr d,
            exists f, Decode.parse_srec (SRecord.generate_record type addr d) = Some f /\
              List.length (Decode.s_address f) = Decode.address_bytes (Decode.s_type f) /\
              Decode.s_checksum f =
              Z.land (Z.lnot (Decode.s_count f + Decode.total (Decode.s_address f)
                              + Decode.total (Decode.s_payload f))) 0xFF) as G.
  { intros type addr d. eexists. split; [apply srec_parse_generate|].
    cbn [Decode.s_address Decode.s_type Decode.s_checksum Decode.s_count
         Decode.s_payload].
    split; [apply srec_address_field_length|apply srec_calculate_checksum_spec]. }
  apply convert_to_srec_forall; intros; apply G.
Qed.

Lemma srec_checksum_every_record_witness :
  Forall (fun line =>
            exists f, Decode.parse_srec line = Some f /\
              List.length (Decode.s_address f) = Decode.address_bytes (Decode.s_type f) /\
              Decode.s_checksum f =
              Z.land (Z.lnot (Decode.s_count f + Decode.total (Decode.s_address f)
                              + Decode.total (Decode.s_payload f))) 0xFF)
         ["S00600004844521B"; "S3065678341201E4"; "S50500010001F8"; "S70556783412E6"].
Proof.
  apply (srec_checksum_every_record (fun _ => true) (SRecord.new 4)
           (bytes_of [1]) 0x12345678 "out.srec" 32 "HDR"
           (mkOutcome true (SRecord.new 4)
              ["S00600004844521B"; "S3065678341201E4"; "S50500010001F8";
               "S70556783412E6"])).
  reflexivity.
Defined.

(** C8. Called with an address size other than 16, 24 or 32,
    [convert_to_srec] returns [false] and writes no line, for every
    buffer, start address and header; once the output file is open the
    message kept for [get_last_error] is the invalid-address-size one. *)
Theorem srec_invalid_address_size
    (is_open : string -> bool) (self : SRecord.SRecordConverter)
    (binary_data : list byte) (start_address : Z) (output_file : string)
    (address_size : Z) (header : string) :
  address_size <> 16 -> address_size <> 24 -> address_size <> 32 ->
  exists r,
    SRecord.convert_to_srec is_open self binary_data start_address output_file
      address_size header = Some r /\
    returned r = false /\ written r = [] /\
    (is_open output_file = true ->
     SRecord.get_last_error (self_after r) =
     "Invalid address size. Must be 16, 24, or 32 bits.").
Proof.
  intros H16 H24 H32. unfold SRecord.convert_to_srec.
  destruct (is_open output_file); cbn [negb].
  - apply Z.eqb_neq in H16, H24, H32. rewrite H16, H24, H32. cbn [negb andb].
    eexists. repeat split.
  - eexists. split; [reflexivity|]. repeat split. discriminate.
Qed.

Lemma srec_invalid_address_size_witness :
  exists r,
    SRecord.convert_to_srec (fun _ => true) (SRecord.new 32) (bytes_of [1; 2; 3])
      0x8000 "out.srec" 20 "HDR" = Some r /\
    returned r = false /\ written r = [] /\
    ((fun _ : string => true) "out.srec" = true ->
     SRecord.get_last_error (self_after r) =
     "Invalid address size. Must be 16, 24, or 32 bits.").
Proof.
  apply (srec_invalid_address_size (fun _ => true) (SRecord.new 32)
           (bytes_of [1; 2; 3]) 0x8000 "out.srec" 20 "HDR"); lia.
Defined.

(** C9. For an empty buffer and every start address, [convert_to_hex]
    writes the end-of-file record and nothing else, with extended
    addressing enabled or not; [convert_to_srec], for an address size
    of 16, 24 or 32, writes the header record if the header is not
    empty, then the count record (of zero records), then the end record
    for the address size. *)
Theorem empty_buffer_output (is_open : string -> bool) (output_file : string) :
  is_open output_file = true ->
  (forall self start_address use_extended_address,
     IntelHex.convert_to_hex is_open self [] start_address output_file
       use_extended_address
     = Some (mkOutcome true self [":00000001FF"])) /\
  IntelOut.line_type ":00000001FF" = Some IntelHex.EOF_RECORD /\
  (forall self start_address address_size header,
     address_size = 16 \/ address_size = 24 \/ address_size = 32 ->
     let header_line :=
       SRecord.generate_record SRecord.S0_HEADER 0 (list_byte_of_string header) in
     let end_line :=
       SRecord.generate_record (SRecord.get_end_record_type address_size)
         start_address [] in
     SRecord.convert_to_srec is_open self [] start_address output_file
       address_size header
     = Some (mkOutcome true self
               ((if (String.length header =? 0)%nat then [] else [header_line])
                ++ ["S50500000000FA"; end_line])%list) /\
     SOut.line_type header_line = Some (SRecord.int_of_type SRecord.S0_HEADER) /\
     SOut.line_type "S50500000000FA" = Some (SRecord.int_of_type SRecord.S5_COUNT_16) /\
     SOut.line_type end_line
       = Some (SRecord.int_of_type (SRecord.get_end_record_type address_size)) /\
     7 <= SRecord.int_of_type (SRecord.get_end_record_type address_size) <= 9).
Proof.
  intros Ho. split; [|split; [reflexivity|]].
  - intros self start ext. unfold IntelHex.convert_to_hex. rewrite Ho. reflexivity.
  - intros self start address_size header Hsz header_line end_line.
    unfold SOut.line_type, header_line, end_line.
    rewrite !srec_parse_generate. cbn [option_map Decode.s_type].
    repeat split; try reflexivity;
      try (destruct Hsz as [-> | [-> | ->]]; cbn; lia).
    unfold SRecord.convert_to_srec. rewrite Ho. cbn [negb].
    assert ((negb (address_size =? 16) && negb (address_size =? 24)
             && negb (address_size =? 32))%bool = false) as Ev
      by (destruct Hsz as [-> | [-> | ->]]; reflexivity).
    rewrite Ev. cbv zeta. rewrite srec_loop_empty.
    destruct (String.length header =? 0)%nat; reflexivity.
Qed.

Lemma empty_buffer_output_witness :
  IntelHex.convert_to_hex (fun _ => true) (IntelHex.new 16) [] 0x8000 "out"
    true
  = Some (mkOutcome true (IntelHex.new 16) [":00000001FF"]) /\
  SRecord.convert_to_srec (fun _ => true) (SRecord.new 16) [] 0x8000 "out" 16 "HDR"
  = Some (mkOutcome true (SRecord.new 16)
            ["S00600004844521B"; "S50500000000FA"; "S90380007C"]).
Proof.
  destruct (empty_buffer_output (fun _ => true) "out" eq_refl) as (A & _ & B).
  split.
  - apply A.
  - destruct (B (SRecord.new 16) 0x8000 16 "HDR") as [E _].
    + left. reflexivity.
    + exact E.
Defined.

(** C7 (the code at a header of 253 characters). The header record has
    two address bytes and 253 payload bytes, and its byte-count field
    reads [00]: the sum 2 + 253 + 1 = 256 was reduced to eight bits. *)
Theorem srec_long_header_byte_count :
  exists header_line rest f,
    option_map written
      (SRecord.convert_to_srec (fun _ => true) (SRecord.new 32) [] 0 "out.srec"
         16 (SOut.replicate 253 "A"))
    = Some (header_line :: rest) /\
    Decode.parse_srec header_line = Some f /\
    Decode.s_type f = SRecord.int_of_type SRecord.S0_HEADER /\
    Decode.s_count f = 0 /\
    size (Decode.s_address f) + size (Decode.s_payload f) + 1 = 256.
Proof.
  eexists. eexists. eexists.
  split; [vm_compute; reflexivity|].
  split; [vm_compute; reflexivity|].
  repeat split.
Qed.

(** C1 (the code at three- and four-byte addresses). The address
    field of the records for address [0x123456] (24-bit) reads
    [345612] and the one for [0x12345678] (32-bit) reads [56783412]:
    the two low bytes come first, then the higher ones. *)
Theorem srec_address_field_order :
  option_map written
    (SRecord.convert_to_srec (fun _ => true) (SRecord.new 32) (bytes_of [1])
       0x123456 "out.srec" 24 "")
  = Some ["S205345612015D"; "S50500010001F8"; "S8043456125F"] /\
  option_map Decode.s_address (Decode.parse_srec "S205345612015D")
  = Some [0x34; 0x56; 0x12] /\
  Decode.big_endian [0x34; 0x56; 0x12] <> 0x123456 /\
  option_map written
    (SRecord.convert_to_srec (fun _ => true) (SRecord.new 32) (bytes_of [1])
       0x12345678 "out.srec" 32 "")
  = Some ["S3065678341201E4"; "S50500010001F8"; "S70556783412E6"] /\
  option_map Decode.s_address (Decode.parse_srec "S3065678341201E4")
  = Some [0x56; 0x78; 0x34; 0x12] /\
  Decode.big_endian [0x56; 0x78; 0x34; 0x12] <> 0x12345678.
Proof.
  repeat split; try reflexivity; vm_compute; discriminate.
Qed.

(** For the two-byte address of S1 and S9 records the field is the
    address, most significant byte first. *)
Lemma srec_address_field_16 (address : Z) :
  0 <= address < 65536 ->
  Decode.big_endian (SOut.address_field SRecord.S1_DATA_16 address) = address /\
  Decode.big_endian (SOut.address_field SRecord.S9_END_16 address) = address.
Proof.
  intros H. unfold SOut.address_field, Decode.big_endian.
  cbn [SRecord.get_address_bytes Z.leb Z.compare Pos.compare Pos.compare_cont
       app fold_left].
  rewrite shiftr_8, land_FF. unfold u8. change (2 ^ 8) with 256.
  split; Z.div_mod_to_equations; lia.
Qed.

Lemma string_length_bytes (s : string) :
  List.length (list_byte_of_string s) = String.length s.
Proof.
  unfold list_byte_of_string. rewrite length_map.
  induction s as [|c s IH]; cbn [list_ascii_of_string List.length String.length];
    congruence.
Qed.

(** X14. When the header has at most 252 characters, the byte-count
    field of every record written by [convert_to_srec] is the number of
    its address bytes plus the length of its payload plus one. *)
Lemma srec_byte_count_short_header
    (is_open : string -> bool) (self : SRecord.SRecordConverter)
    (binary_data : list byte) (start_address : Z) (output_file : string)
    (address_size : Z) (header : string) (r : Outcome SRecord.SRecordConverter) :
  (String.length header <= 252)%nat ->
  SRecord.convert_to_srec is_open self binary_data start_address output_file
    address_size header = Some r ->
  Forall (fun line =>
            exists f, Decode.parse_srec line = Some f /\
              Decode.s_count f =
              size (Decode.s_address f) + size (Decode.s_payload f) + 1)
         (written r).
Proof.
  intros Hh.
  assert (forall type addr d, size d <= 255 - SRecord.get_address_bytes type - 1 ->
            exists f, Decode.parse_srec (SRecord.generate_record type addr d) = Some f /\
              Decode.s_count f =
              size (Decode.s_address f) + size (Decode.s_payload f) + 1) as G.
  { intros type addr d Hd. eexists. split; [apply srec_parse_generate|].
    cbn [Decode.s_count Decode.s_address Decode.s_payload].
    rewrite size_map. unfold size at 2.
    destruct (srec_address_field_length type addr) as [_ ->].
    pose proof (get_address_bytes_range type).
    assert (0 <= size d) by (unfold size; lia).
    apply u8_small. lia. }
  apply convert_to_srec_forall; [exact G|].
  intros _. apply G. unfold size. rewrite string_length_bytes. cbn. lia.
Qed.

(** * Further properties *)

(** ** Loading an Intel HEX file back *)

Lemma place_app (a : Z) (x y : list Z) :
  Load.place a (x ++ y) = (Load.place a x ++ Load.place (a + size x) y)%list.
Proof.
  revert a. induction x as [|b x IH]; intros a.
  - cbn [app Load.place]. f_equal. unfold size. cbn. lia.
  - cbn [app Load.place]. rewrite IH. do 3 f_equal.
    unfold size. cbn [List.length]. lia.
Qed.

Lemma intel_record_ok_generate (byte_count address record_type : Z)
    (data : list byte) :
  0 <= byte_count < 256 -> 0 <= record_type < 256 -> byte_count = size data ->
  Load.intel_record_ok
    (Decode.mkIntel byte_count (u8 (Z.shiftr address 8)) (u8 (Z.land address 0xFF))
       record_type (map byte_val data)
       (IntelHex.calculate_checksum byte_count address record_type data)) = true.
Proof.
  intros Hc Ht Hs. unfold Load.intel_record_ok.
  cbn [Decode.i_count Decode.i_addr_hi Decode.i_addr_lo Decode.i_type
       Decode.i_payload Decode.i_checksum].
  rewrite size_map. apply andb_true_intro. split; [apply Z.eqb_eq; exact Hs|].
  apply Z.eqb_eq. rewrite intel_calculate_checksum_spec.
  Z.div_mod_to_equations. lia.
Qed.

Lemma load_intel_data (upper cur n : Z) (d : list byte) (rest : list string) :
  0 <= n < 256 -> size d = n ->
  Load.load_intel upper (render (Data cur n d) :: rest) =
  match Load.load_intel upper rest with
  | Some m =>
    Some (Load.place (65536 * upper + cur mod 65536) (map byte_val d) ++ m)%list
  | None => None
  end.
Proof.
  intros Hn Hs. cbn [Load.load_intel].
  pose proof (intel_parse_generate (u8 n) (u16 (Z.land cur 0xFFFF))
                IntelHex.DATA_RECORD d (u8_range n) ltac:(cbv; split; congruence)) as P.
  cbn [render]. rewrite P.
  rewrite intel_record_ok_generate;
    [|apply u8_range|cbv; split; congruence|rewrite u8_small by exact Hn; lia].
  cbn [negb Decode.i_type Decode.i_payload].
  change (IntelHex.DATA_RECORD =? 0) with true. cbv iota.
  destruct (address_field_render_data cur n d _ P) as [_ ->].
  reflexivity.
Qed.

Lemma load_intel_ext (upper cur : Z) (rest : list string) :
  0 <= cur < 4294967296 ->
  Load.load_intel upper (render (Ext cur) :: rest) =
  Load.load_intel (cur / 65536) rest.
Proof.
  intros Hc. cbn [Load.load_intel render].
  unfold IntelHex.generate_extended_address_record. cbv zeta.
  rewrite intel_parse_generate by (cbv; split; congruence).
  rewrite intel_record_ok_generate by (try reflexivity; cbv; split; congruence).
  cbn [negb Decode.i_type Decode.i_payload map].
  change (IntelHex.EXTENDED_LINEAR_ADDRESS =? 0) with false.
  change (IntelHex.EXTENDED_LINEAR_ADDRESS =? 4) with true. cbv iota.
  change (size [byte_val (byte_of_Z (u8 (Z.shiftr (u16 (Z.shiftr cur 16)) 8)));
                byte_val (byte_of_Z (u8 (Z.land (u16 (Z.shiftr cur 16)) 0xFF)))]
          =? 2) with true. cbv iota.
  f_equal. rewrite !byte_val_of_Z by apply u8_range.
  unfold Decode.big_endian. cbn [fold_left].
  rewrite shiftr_8, shiftr_16, land_FF. unfold u8, u16.
  change (2 ^ 8) with 256. change (2 ^ 16) with 65536.
  Z.div_mod_to_equations. lia.
Qed.

Lemma load_intel_eof (upper : Z) : Load.load_intel upper [eof_line] = Some [].
Proof. reflexivity. Qed.

(** The loader state [upper] follows the loop: with extended
    addressing it is set by the record the loop writes whenever the
    tracked page changes; without it the buffer must lie in the first
    64 KiB. *)
Lemma load_intel_calls (fuel : nat) (bpl : Z) (ext : bool) (data : list byte) :
  0 <= bpl <= 255 ->
  forall (cur ea off upper : Z) (cs : list Call),
  0 <= off -> 0 <= cur < 4294967296 ->
  cur + (size data - off) <= 4294967296 ->
  (if ext then cur / 65536 = ea -> upper = ea
   else upper = 0 /\ cur + (size data - off) <= 65536) ->
  calls fuel bpl ext data cur ea off = Some cs ->
  Load.load_intel upper (map render cs ++ [eof_line])
  = Some (Load.place cur (map byte_val (skipn (Z.to_nat off) data))).
Proof.
  intros Hb.
  induction fuel as [|fuel IH]; intros cur ea off upper cs Ho Hc Hw Hinv;
    cbn [calls]; destruct (Z.ltb_spec off (size data)) as [Hlt|Hge];
    try discriminate;
    try (intros [= <-]; cbn [map app]; rewrite load_intel_eof;
         rewrite skipn_all2 by (unfold size in Hge; lia); reflexivity).
  cbv zeta. rewrite shiftr_16.
  destruct (chunk_bounds bpl (size data - off) cur ltac:(lia) ltac:(lia))
    as (Hn0 & Hn1 & Hn2 & Hn3).
  set (n := Z.min (Z.min bpl (size data - off)) (0x10000 - Z.land cur 0xFFFF)) in *.
  match goal with |- context [calls fuel bpl ext data ?c ?e ?o] =>
    destruct (calls fuel bpl ext data c e o) as [rest|] eqn:E end;
    [|discriminate].
  intros [= <-].
  pose proof (slice_size data off n Ho Hn0 ltac:(lia)) as Hs.
  (* what the loader has after the records of this iteration *)
  assert (Load.load_intel
            (if (ext && negb (cur / 65536 =? ea))%bool then cur / 65536 else upper)
            (map render rest ++ [eof_line])
          = Some (Load.place (cur + n)
                    (map byte_val (skipn (Z.to_nat (off + n)) data)))) as Hrest.
  { destruct (Z.lt_ge_cases (off + n) (size data)) as [Hmore|Hlast].
    - rewrite (u32_small (cur + n)) in E by lia.
      assert (0 <= off + n) as H1 by lia.
      assert (0 <= cur + n < 4294967296) as H2 by lia.
      assert (cur + n + (size data - (off + n)) <= 4294967296) as H3 by lia.
      refine (IH _ _ _ _ _ H1 H2 H3 _ E).
      destruct ext; cbn [andb].
      + destruct (Z.eqb_spec (cur / 65536) ea) as [Hea|Hea]; cbn [negb].
        * intros _. apply Hinv. exact Hea.
        * intros _. reflexivity.
      + split; [apply Hinv|]. destruct Hinv as [_ Hinv]. lia.
    - rewrite calls_done in E by lia. injection E as <-.
      cbn [map app]. rewrite load_intel_eof.
      rewrite skipn_all2 by (unfold size in Hlast; lia). reflexivity. }
  assert (65536 * (if (ext && negb (cur / 65536 =? ea))%bool
                   then cur / 65536 else upper) + cur mod 65536 = cur) as Haddr.
  { destruct ext; cbn [andb].
    - destruct (Z.eqb_spec (cur / 65536) ea) as [Hea|Hea]; cbn [negb].
      + rewrite (Hinv Hea), <- Hea. Z.div_mod_to_equations. lia.
      + Z.div_mod_to_equations. lia.
    - destruct Hinv as [-> Hinv]. rewrite Z.mod_small by lia. lia. }
  rewrite <- (slice_skipn data off n Ho Hn0), (map_app byte_val), place_app,
    size_map, Hs.
  destruct (ext && negb (cur / 65536 =? ea))%bool; cbn [app map].
  - rewrite load_intel_ext by exact Hc.
    rewrite load_intel_data by (try exact Hs; lia).
    rewrite Hrest, Haddr. reflexivity.
  - rewrite load_intel_data by (try exact Hs; lia).
    rewrite Hrest, Haddr. reflexivity.
Qed.

(** X1. Round trip with extended addressing.  For a line width of 1
    to 255 and a buffer that fits below [2^32] from [start_address],
    the file written by [convert_to_hex] loads back, record by record
    with byte counts and checksums verified, as the bytes of the buffer
    at the consecutive 32-bit addresses from [start_address]. *)
Theorem intel_round_trip_extended
    (is_open : string -> bool) (self : IntelHex.IntelHexConverter)
    (binary_data : list byte) (start_address : Z) (output_file : string) :
  is_open output_file = true ->
  1 <= IntelHex.bytes_per_line_ self <= 255 ->
  0 <= start_address < 2 ^ 32 ->
  start_address + size binary_data <= 2 ^ 32 ->
  exists r,
    IntelHex.convert_to_hex is_open self binary_data start_address output_file
      true = Some r /\
    returned r = true /\
    Load.load_intel 0 (written r)
    = Some (Load.place start_address (map byte_val binary_data)).
Proof.
  intros Ho Hb Hs Hw. change (2 ^ 32) with 4294967296 in *.
  rewrite convert_to_hex_calls by exact Ho.
  destruct (calls_terminates (List.length binary_data)
              (IntelHex.bytes_per_line_ self) true binary_data start_address
              0xFFFFFFFF 0 (proj1 Hb)) as [cs E]; [unfold size; lia|].
  rewrite E. eexists. split; [reflexivity|]. split; [reflexivity|].
  cbn [written].
  assert (0 <= IntelHex.bytes_per_line_ self <= 255) as Hb0 by lia.
  assert (start_address + (size binary_data - 0) <= 4294967296) as Hw0 by lia.
  apply (load_intel_calls (List.length binary_data) _ true binary_data Hb0 start_address 0xFFFFFFFF 0 0 cs
           (Z.le_refl 0) Hs Hw0); [|exact E].
  intros Hea. exfalso. revert Hea. Z.div_mod_to_equations. lia.
Qed.

Lemma intel_round_trip_extended_witness :
  exists r,
    IntelHex.convert_to_hex (fun _ => true) (IntelHex.new 2)
      (bytes_of [1; 2; 3; 4]) 0xFFFE "out.hex" true = Some r /\
    returned r = true /\
    Load.load_intel 0 (written r)
    = Some (Load.place 0xFFFE (map byte_val (bytes_of [1; 2; 3; 4]))).
Proof.
  apply (intel_round_trip_extended (fun _ => true) (IntelHex.new 2)
           (bytes_of [1; 2; 3; 4]) 0xFFFE "out.hex").
  - reflexivity.
  - cbn. lia.
  - lia.
  - vm_compute. discriminate.
Defined.



(** X3. With extended addressing enabled, a non-empty buffer that does
    not wrap the 32-bit address space gets one extended-linear-address
    record for each 64 KiB page it touches. *)
Theorem intel_extended_record_count
    (is_open : string -> bool) (self : IntelHex.IntelHexConverter)
    (binary_data : list byte) (start_address : Z) (output_file : string) :
  is_open output_file = true ->
  1 <= IntelHex.bytes_per_line_ self ->
  0 <= start_address -> 0 < size binary_data ->
  start_address + size binary_data <= 2 ^ 32 ->
  exists r,
    IntelHex.convert_to_hex is_open self binary_data start_address output_file
      true = Some r /\
    Z.of_nat (IntelOut.count_type IntelHex.EXTENDED_LINEAR_ADDRESS (written r))
    = (start_address + size binary_data - 1) / 65536 - start_address / 65536 + 1.
Proof.
  intros Ho Hb Hs Hd Hw. change (2 ^ 32) with 4294967296 in Hw.
  change IntelHex.EXTENDED_LINEAR_ADDRESS with 4.
  rewrite convert_to_hex_calls by exact Ho.
  destruct (calls_terminates (List.length binary_data)
              (IntelHex.bytes_per_line_ self) true binary_data start_address
              0xFFFFFFFF 0 Hb) as [cs E]; [unfold size; lia|].
  rewrite E. eexists. split; [reflexivity|]. cbn [written].
  rewrite count_ext_render.
  rewrite (calls_ext_count _ _ _ Hb _ _ _ _ (Z.le_refl 0) Hd Hs ltac:(lia) E).
  destruct (Z.eqb_spec (start_address / 65536) 0xFFFFFFFF) as [Hea|_].
  - exfalso. revert Hea. Z.div_mod_to_equations. lia.
  - rewrite Z.sub_0_r. lia.
Qed.

Lemma intel_extended_record_count_witness :
  exists r,
    IntelHex.convert_to_hex (fun _ => true) (IntelHex.new 255)
      (bytes_of (repeat 0 300)) 0x2FFF0 "out.hex" true = Some r /\
    Z.of_nat (IntelOut.count_type IntelHex.EXTENDED_LINEAR_ADDRESS (written r))
    = (0x2FFF0 + size (bytes_of (repeat 0 300)) - 1) / 65536 - 0x2FFF0 / 65536 + 1.
Proof.
  apply (intel_extended_record_count (fun _ => true) (IntelHex.new 255)
           (bytes_of (repeat 0 300)) 0x2FFF0 "out.hex").
  - reflexivity.
  - cbn. lia.
  - lia.
  - reflexivity.
  - vm_compute. discriminate.
Defined.

(** ** Line width: constructors and setters *)

(** X4. A converter built by its constructor has a line width of 1 to
    255 (Intel HEX) or 1 to 252 (S-Record) whatever width is asked for,
    and its conversion always returns; the Intel HEX one returns [true]
    exactly when the output file opens. *)
Theorem constructed_converters_return
    (is_open : string -> bool) (bytes_per_line : Z) (binary_data : list byte)
    (start_address : Z) (output_file : string) (use_extended_address : bool)
    (address_size : Z) (header : string) :
  1 <= IntelHex.bytes_per_line_ (IntelHex.new bytes_per_line) <= 255 /\
  1 <= SRecord.bytes_per_line_ (SRecord.new bytes_per_line) <= 252 /\
  (exists r,
     IntelHex.convert_to_hex is_open (IntelHex.new bytes_per_line) binary_data
       start_address output_file use_extended_address = Some r /\
     returned r = is_open output_file) /\
  (exists r,
     SRecord.convert_to_srec is_open (SRecord.new bytes_per_line) binary_data
       start_address output_file address_size header = Some r).
Proof.
  assert (1 <= IntelHex.bytes_per_line_ (IntelHex.new bytes_per_line) <= 255) as Hi
    by (cbn [IntelHex.new IntelHex.bytes_per_line_]; lia).
  assert (1 <= SRecord.bytes_per_line_ (SRecord.new bytes_per_line) <= 252) as Hs
    by (cbn [SRecord.new SRecord.bytes_per_line_]; lia).
  split; [exact Hi|]. split; [exact Hs|]. split.
  - destruct (is_open output_file) eqn:Ho.
    + rewrite convert_to_hex_calls by exact Ho.
      destruct (calls_terminates (List.length binary_data)
                  (IntelHex.bytes_per_line_ (IntelHex.new bytes_per_line))
                  use_extended_address binary_data start_address 0xFFFFFFFF 0
                  (proj1 Hi)) as [cs E]; [unfold size; lia|].
      rewrite E. eexists. split; reflexivity.
    + rewrite convert_to_hex_closed by exact Ho. eexists. split; reflexivity.
  - apply convert_to_srec_returns. exact (proj1 Hs).
Qed.

(** X5. After [set_bytes_per_line(0)] the data loop of either
    converter makes no progress: while bytes remain, no number of
    iterations brings it to its end. *)
Theorem zero_line_width_never_ends
    (fuel : nat) (binary_data : list byte) (out : list string)
    (current_address extended_address data_offset record_count : Z)
    (use_extended_address : bool) (data_type : SRecord.RecordType)
    (hex : IntelHex.IntelHexConverter) (srec : SRecord.SRecordConverter) :
  data_offset < size binary_data ->
  IntelHex.write_data_records fuel
    (IntelHex.bytes_per_line_ (IntelHex.set_bytes_per_line hex 0))
    use_extended_address binary_data out current_address extended_address
    data_offset = None /\
  SRecord.write_data_records fuel
    (SRecord.bytes_per_line_ (SRecord.set_bytes_per_line srec 0))
    data_type binary_data out current_address data_offset record_count = None.
Proof.
  intros Hlt. split.
  - rewrite write_data_records_calls.
    rewrite calls_diverges; [reflexivity|cbn; lia|exact Hlt].
  - apply srec_loop_diverges; [cbn; lia|exact Hlt].
Qed.

Lemma zero_line_width_never_ends_witness :
  IntelHex.write_data_records 1000 0 true (bytes_of [1; 2; 3]) [] 0 0xFFFFFFFF 0
  = None /\
  SRecord.write_data_records 1000 0 SRecord.S1_DATA_16 (bytes_of [1; 2; 3]) [] 0 0 0
  = None.
Proof.
  apply (zero_line_width_never_ends 1000 (bytes_of [1; 2; 3]) [] 0 0xFFFFFFFF 0 0
           true SRecord.S1_DATA_16 (IntelHex.new 16) (SRecord.new 16)).
  reflexivity.
Defined.

(** ** The error message *)

Lemma convert_to_hex_success_keeps_self (is_open : string -> bool)
    (self : IntelHex.IntelHexConverter) (data : list byte) (start : Z)
    (file : string) (ext : bool) (r : Outcome IntelHex.IntelHexConverter) :
  IntelHex.convert_to_hex is_open self data start file ext = Some r ->
  returned r = true -> self_after r = self.
Proof.
  unfold IntelHex.convert_to_hex.
  destruct (negb (is_open file)); [intros [= <-]; discriminate|].
  cbv zeta. destruct (IntelHex.write_data_records _ _ _ _ _ _ _ _); [|discriminate].
  intros [= <-] _. reflexivity.
Qed.

Lemma convert_to_srec_success_keeps_self (is_open : string -> bool)
    (self : SRecord.SRecordConverter) (data : list byte) (start : Z)
    (file : string) (address_size : Z) (header : string)
    (r : Outcome SRecord.SRecordConverter) :
  SRecord.convert_to_srec is_open self data start file address_size header = Some r ->
  returned r = true -> self_after r = self.
Proof.
  unfold SRecord.convert_to_srec.
  destruct (negb (is_open file)); [intros [= <-]; discriminate|].
  destruct (negb (address_size =? 16) && negb (address_size =? 24)
            && negb (address_size =? 32))%bool; [intros [= <-]; discriminate|].
  cbv zeta.
  destruct (SRecord.write_data_records _ _ _ _ _ _ _ _) as [[out rc]|];
    [|discriminate].
  intros [= <-] _. reflexivity.
Qed.

(** X6. [last_error_] is written on failure only: when a conversion
    fails and the next conversion on the same object succeeds,
    [get_last_error] still gives the message of the failure.  Both
    converters behave so. *)
Theorem last_error_survives_success (is_open : string -> bool) :
  (forall self data1 start1 file1 ext1 r1 data2 start2 file2 ext2 r2,
     IntelHex.convert_to_hex is_open self data1 start1 file1 ext1 = Some r1 ->
     returned r1 = false ->
     IntelHex.convert_to_hex is_open (self_after r1) data2 start2 file2 ext2
       = Some r2 ->
     returned r2 = true ->
     IntelHex.get_last_error (self_after r2)
       = "Failed to open output file: " ++ file1) /\
  (forall self data1 start1 file1 size1 header1 r1
          data2 start2 file2 size2 header2 r2,
     SRecord.convert_to_srec is_open self data1 start1 file1 size1 header1
       = Some r1 ->
     returned r1 = false ->
     SRecord.convert_to_srec is_open (self_after r1) data2 start2 file2 size2
       header2 = Some r2 ->
     returned r2 = true ->
     SRecord.get_last_error (self_after r2)
       = SRecord.get_last_error (self_after r1) /\
     (SRecord.get_last_error (self_after r1)
        = "Failed to open output file: " ++ file1 \/
      SRecord.get_last_error (self_after r1)
        = "Invalid address size. Must be 16, 24, or 32 bits.")).
Proof.
  split.
  - intros self d1 s1 f1 e1 r1 d2 s2 f2 e2 r2 E1 F1 E2 T2.
    rewrite (convert_to_hex_success_keeps_self _ _ _ _ _ _ _ E2 T2).
    revert E1 F1. unfold IntelHex.convert_to_hex.
    destruct (negb (is_open f1)); [intros [= <-] _; reflexivity|].
    cbv zeta.
    destruct (IntelHex.write_data_records _ _ _ _ _ _ _ _); [|discriminate].
    intros [= <-]. discriminate.
  - intros self d1 s1 f1 z1 h1 r1 d2 s2 f2 z2 h2 r2 E1 F1 E2 T2.
    rewrite (convert_to_srec_success_keeps_self _ _ _ _ _ _ _ _ E2 T2).
    split; [reflexivity|].
    revert E1 F1. unfold SRecord.convert_to_srec.
    destruct (negb (is_open f1)); [intros [= <-] _; left; reflexivity|].
    destruct (negb (z1 =? 16) && negb (z1 =? 24) && negb (z1 =? 32))%bool;
      [intros [= <-] _; right; reflexivity|].
    cbv zeta.
    destruct (SRecord.write_data_records _ _ _ _ _ _ _ _) as [[out rc]|];
      [|discriminate].
    intros [= <-]. discriminate.
Qed.

Lemma last_error_survives_success_witness :
  exists r1 r2,
    SRecord.convert_to_srec (fun _ => true) (SRecord.new 32) (bytes_of [1]) 0
      "a.srec" 20 "" = Some r1 /\
    SRecord.convert_to_srec (fun _ => true) (self_after r1) (bytes_of [1]) 0
      "b.srec" 16 "" = Some r2 /\
    returned r2 = true /\
    SRecord.get_last_error (self_after r2)
    = "Invalid address size. Must be 16, 24, or 32 bits.".
Proof.
  destruct (last_error_survives_success (fun _ => true)) as [_ B].
  exists (mkOutcome false
            (SRecord.mkConverter 32
               "Invalid address size. Must be 16, 24, or 32 bits.") []).
  exists (mkOutcome true
            (SRecord.mkConverter 32
               "Invalid address size. Must be 16, 24, or 32 bits.")
            ["S104000001FA"; "S50500010001F8"; "S9030000FC"]).
  split; [reflexivity|]. split; [reflexivity|]. split; [reflexivity|].
  destruct (B (SRecord.new 32) (bytes_of [1]) 0 "a.srec" 20 ""
              (mkOutcome false
                 (SRecord.mkConverter 32
                    "Invalid address size. Must be 16, 24, or 32 bits.") [])
              (bytes_of [1]) 0 "b.srec" 16 ""
              (mkOutcome true
                 (SRecord.mkConverter 32
                    "Invalid address size. Must be 16, 24, or 32 bits.")
                 ["S104000001FA"; "S50500010001F8"; "S9030000FC"])
              eq_refl eq_refl eq_refl eq_refl) as [E _].
  exact E.
Defined.

(** ** BinaryUtils *)

(** X7. [byte_to_hex] gives two upper-case hexadecimal digits that
    read back as the byte. *)
Theorem byte_to_hex_round_trip (value : Z) :
  0 <= value < 256 ->
  String.length (BinaryUtils.byte_to_hex value) = 2%nat /\
  Decode.hex_bytes (BinaryUtils.byte_to_hex value) = Some [value].
Proof.
  intros H. split; [reflexivity|].
  rewrite <- (string_app_empty (BinaryUtils.byte_to_hex value)).
  rewrite hex_bytes_byte by exact H. reflexivity.
Qed.

Lemma byte_to_hex_round_trip_witness :
  String.length (BinaryUtils.byte_to_hex 0xAF) = 2%nat /\
  Decode.hex_bytes (BinaryUtils.byte_to_hex 0xAF) = Some [0xAF].
Proof. apply (byte_to_hex_round_trip 0xAF). lia. Defined.

Lemma word_to_hex_hexes (value : Z) :
  BinaryUtils.word_to_hex value
  = hexes [u8 (Z.shiftr value 8); u8 (Z.land value 0xFF)].
Proof.
  unfold BinaryUtils.word_to_hex. cbn [hexes].
  rewrite string_app_empty. reflexivity.
Qed.

(** X8. [word_to_hex] and [dword_to_hex] give four and eight
    upper-case hexadecimal digits whose bytes, most significant first,
    make up the value. *)
Theorem word_dword_to_hex_big_endian (value : Z) :
  (0 <= value < 2 ^ 16 ->
   String.length (BinaryUtils.word_to_hex value) = 4%nat /\
   option_map Decode.big_endian (Decode.hex_bytes (BinaryUtils.word_to_hex value))
   = Some value) /\
  (0 <= value < 2 ^ 32 ->
   String.length (BinaryUtils.dword_to_hex value) = 8%nat /\
   option_map Decode.big_endian (Decode.hex_bytes (BinaryUtils.dword_to_hex value))
   = Some value).
Proof.
  split; intros H.
  - split; [reflexivity|]. rewrite word_to_hex_hexes.
    rewrite hex_bytes_hexes by (repeat (constructor; [apply u8_range|]); constructor).
    cbn [option_map]. f_equal. unfold Decode.big_endian. cbn [fold_left].
    rewrite shiftr_8, land_FF. unfold u8. change (2 ^ 8) with 256.
    change (2 ^ 16) with 65536 in H. Z.div_mod_to_equations. lia.
  - split; [reflexivity|]. unfold BinaryUtils.dword_to_hex.
    rewrite !word_to_hex_hexes, <- hexes_app. cbn [app].
    rewrite hex_bytes_hexes by (repeat (constructor; [apply u8_range|]); constructor).
    cbn [option_map]. f_equal. unfold Decode.big_endian. cbn [fold_left].
    rewrite !shiftr_8, shiftr_16, !land_FF, land_FFFF. unfold u8, u16.
    change (2 ^ 8) with 256. change (2 ^ 16) with 65536.
    change (2 ^ 32) with 4294967296 in H. Z.div_mod_to_equations. lia.
Qed.

Lemma word_dword_to_hex_big_endian_witness :
  (String.length (BinaryUtils.word_to_hex 0x12AB) = 4%nat /\
   option_map Decode.big_endian (Decode.hex_bytes (BinaryUtils.word_to_hex 0x12AB))
   = Some 0x12AB) /\
  (String.length (BinaryUtils.dword_to_hex 0x12AB) = 8%nat /\
   option_map Decode.big_endian (Decode.hex_bytes (BinaryUtils.dword_to_hex 0x12AB))
   = Some 0x12AB).
Proof.
  destruct (word_dword_to_hex_big_endian 0x12AB) as [A B].
  split; [apply A|apply B]; lia.
Defined.

(** ** The S-Record loop, record by record *)

Lemma srec_loop_out (fuel : nat) (bpl : Z) (type : SRecord.RecordType)
    (data : list byte) (out : list string) (cur off rc : Z) :
  SRecord.write_data_records fuel bpl type data out cur off rc =
  match SRecord.write_data_records fuel bpl type data [] cur off rc with
  | Some (ls, rc') => Some ((out ++ ls)%list, rc')
  | None => None
  end.
Proof.
  revert out cur off rc.
  induction fuel as [|fuel IH]; intros out cur off rc;
    cbn [SRecord.write_data_records]; destruct (off <? size data);
    try (rewrite app_nil_r; reflexivity); try reflexivity.
  cbv zeta. rewrite IH. rewrite (IH ([] ++ _)%list).
  destruct (SRecord.write_data_records fuel bpl type data [] _ _ _)
    as [[ls rc']|]; [|reflexivity].
  cbn [app]. rewrite <- app_assoc. reflexivity.
Qed.

(** One iteration: the record of the chunk at [off], then the rest. *)
Lemma srec_loop_step (fuel : nat) (bpl : Z) (type : SRecord.RecordType)
    (data : list byte) (cur off rc : Z) :
  off < size data ->
  let n := Z.min (Z.min bpl (size data - off))
                 (255 - SRecord.get_address_bytes type - 1) in
  SRecord.write_data_records (S fuel) bpl type data [] cur off rc =
  match SRecord.write_data_records fuel bpl type data []
          (u32 (cur + n)) (off + n) (u32 (rc + 1)) with
  | Some (ls, rc') =>
    Some (SRecord.generate_record type cur (slice data off (off + n)) :: ls, rc')
  | None => None
  end.
Proof.
  intros Hlt n. cbn [SRecord.write_data_records].
  destruct (Z.ltb_spec off (size data)); [|lia].
  cbv zeta. fold n. rewrite srec_loop_out. reflexivity.
Qed.

Lemma srec_loop_done (fuel : nat) (bpl : Z) (type : SRecord.RecordType)
    (data : list byte) (out : list string) (cur off rc : Z) :
  size data <= off ->
  SRecord.write_data_records fuel bpl type data out cur off rc = Some (out, rc).
Proof.
  intros H. destruct fuel; cbn [SRecord.write_data_records];
    destruct (Z.ltb_spec off (size data)); try lia; reflexivity.
Qed.

Lemma srec_chunk_bounds (bpl rem : Z) (type : SRecord.RecordType) :
  1 <= bpl -> 0 < rem ->
  let n := Z.min (Z.min bpl rem) (255 - SRecord.get_address_bytes type - 1) in
  1 <= n /\ n <= rem /\ n <= bpl /\ n <= 255 - SRecord.get_address_bytes type - 1.
Proof.
  intros Hb Hr n. unfold n. pose proof (get_address_bytes_range type). lia.
Qed.

Lemma ceil_div_step (rem c : Z) :
  1 <= c -> 0 < rem ->
  (rem + c - 1) / c = 1 + (Z.max 0 (rem - Z.min c rem) + c - 1) / c.
Proof.
  intros Hc Hr. destruct (Z.le_gt_cases rem c) as [Hle|Hgt].
  - rewrite Z.min_r by lia. replace (rem - rem) with 0 by lia.
    rewrite Z.max_l by lia.
    rewrite (Z.div_small (0 + c - 1)) by lia.
    symmetry. apply Z.div_unique with (r := rem - 1); lia.
  - rewrite Z.min_l by lia. rewrite Z.max_r by lia.
    replace (rem + c - 1) with (rem - c + c - 1 + 1 * c) by lia.
    rewrite Z.div_add by lia. lia.
Qed.

(** The number of records the loop writes and the count it returns. *)
Lemma srec_loop_count (fuel : nat) (bpl : Z) (type : SRecord.RecordType)
    (data : list byte) :
  1 <= bpl ->
  forall (cur off rc : Z) (ls : list string) (rc' : Z),
  0 <= off -> 0 <= rc -> rc + Z.max 0 (size data - off) < 4294967296 ->
  SRecord.write_data_records fuel bpl type data [] cur off rc = Some (ls, rc') ->
  let c := Z.min bpl (255 - SRecord.get_address_bytes type - 1) in
  rc' = rc + Z.of_nat (List.length ls) /\
  Z.of_nat (List.length ls) = (Z.max 0 (size data - off) + c - 1) / c.
Proof.
  intros Hb. pose proof (get_address_bytes_range type) as Hab.
  induction fuel as [|fuel IH]; intros cur off rc ls rc' Ho Hrc Hw E c.
  - cbn [SRecord.write_data_records] in E.
    destruct (Z.ltb_spec off (size data)) as [Hlt|Hge]; [discriminate|].
    injection E as <- <-. cbn [List.length]. split; [lia|].
    rewrite Z.max_l by lia. rewrite Z.div_small by (unfold c; lia). reflexivity.
  - destruct (Z.lt_ge_cases off (size data)) as [Hlt|Hge].
    + rewrite srec_loop_step in E by exact Hlt. cbv zeta in E.
      destruct (srec_chunk_bounds bpl (size data - off) type Hb ltac:(lia))
        as (Hn0 & Hn1 & Hn2 & Hn3).
      set (n := Z.min (Z.min bpl (size data - off))
                      (255 - SRecord.get_address_bytes type - 1)) in *.
      destruct (SRecord.write_data_records fuel bpl type data [] _ _ _)
        as [[ls0 rc0]|] eqn:E0; [|discriminate].
      injection E as <- <-.
      rewrite (u32_small (rc + 1)) in E0 by lia.
      assert (0 <= off + n) as H1 by lia.
      assert (0 <= rc + 1) as H2 by lia.
      assert (rc + 1 + Z.max 0 (size data - (off + n)) < 4294967296) as H3 by lia.
      destruct (IH _ _ _ _ _ H1 H2 H3 E0) as [Hc Hl]. fold c in Hl.
      cbn [List.length]. rewrite Nat2Z.inj_succ. split; [lia|].
      rewrite Hl. rewrite (Z.max_r 0 (size data - off)) by lia.
      rewrite (ceil_div_step (size data - off) c) by (unfold c; lia).
      replace (Z.min c (size data - off)) with n by (unfold n, c; lia).
      replace (size data - (off + n)) with (size data - off - n) by lia. lia.
    + rewrite srec_loop_done in E by exact Hge. injection E as <- <-.
      cbn [List.length]. split; [lia|].
      rewrite Z.max_l by lia. rewrite Z.div_small by (unfold c; lia). reflexivity.
Qed.

(** ** Loading an S-Record file back *)

Lemma srec_record_ok_generate (type : SRecord.RecordType) (address : Z)
    (data : list byte) :
  size data <= 255 - SRecord.get_address_bytes type - 1 ->
  Load.srec_record_ok
    (Decode.mkS (SRecord.int_of_type type)
       (u8 (SRecord.get_address_bytes type + size data + 1))
       (SOut.address_field type address) (map byte_val data)
       (SRecord.calculate_checksum
          (u8 (SRecord.get_address_bytes type + size data + 1)) address
          (SRecord.get_address_bytes type) data)) = true.
Proof.
  intros Hd. unfold Load.srec_record_ok.
  cbn [Decode.s_count Decode.s_address Decode.s_payload Decode.s_checksum].
  pose proof (get_address_bytes_range type) as Hab.
  assert (0 <= size data) as Hs by (unfold size; lia).
  destruct (srec_address_field_length type address) as [_ Hl].
  apply andb_true_intro. split; apply Z.eqb_eq.
  - rewrite size_map. unfold size at 2. rewrite Hl. apply u8_small. lia.
  - rewrite srec_calculate_checksum_spec, land_FF. unfold Z.lnot.
    Z.div_mod_to_equations. lia.
Qed.

Lemma srec_address_field_count (count : Z) :
  0 <= count < 65536 ->
  Decode.big_endian (SOut.address_field SRecord.S5_COUNT_16 count) = count.
Proof.
  intros H. unfold SOut.address_field, Decode.big_endian.
  cbn [SRecord.get_address_bytes Z.leb Z.compare Pos.compare Pos.compare_cont
       app fold_left].
  rewrite shiftr_8, land_FF. unfold u8. change (2 ^ 8) with 256.
  Z.div_mod_to_equations. lia.
Qed.

Lemma load_srec_data_16 (seen cur : Z) (d : list byte) (rest : list string) :
  0 <= cur < 65536 -> size d <= 252 ->
  Load.load_srec seen (SRecord.generate_record SRecord.S1_DATA_16 cur d :: rest) =
  match Load.load_srec (seen + 1) rest with
  | Some m => Some (Load.place cur (map byte_val d) ++ m)%list
  | None => None
  end.
Proof.
  intros Hc Hd. cbn [Load.load_srec]. rewrite srec_parse_generate. cbv zeta.
  rewrite srec_record_ok_generate by (cbn; lia).
  cbn [negb Decode.s_type Decode.s_address Decode.s_payload SRecord.int_of_type].
  change (1 =? 0) with false. change (1 =? 1) with true. cbn [orb].
  destruct (srec_address_field_16 cur Hc) as [-> _]. reflexivity.
Qed.

Lemma load_srec_header (seen : Z) (header : string) (rest : list string) :
  (String.length header <= 252)%nat ->
  Load.load_srec seen
    (SRecord.generate_record SRecord.S0_HEADER 0 (list_byte_of_string header)
       :: rest)
  = Load.load_srec seen rest.
Proof.
  intros Hh. cbn [Load.load_srec]. rewrite srec_parse_generate. cbv zeta.
  rewrite srec_record_ok_generate
    by (unfold size; rewrite string_length_bytes; cbn; lia).
  reflexivity.
Qed.

Lemma load_srec_count_end (count start : Z) (end_type : SRecord.RecordType) :
  0 <= count < 65536 ->
  7 <= SRecord.int_of_type end_type <= 9 ->
  Load.load_srec count
    [SRecord.generate_record SRecord.S5_COUNT_16 count
       [byte_of_Z (u8 (Z.shiftr count 8)); byte_of_Z (u8 (Z.land count 0xFF))];
     SRecord.generate_record end_type start []]
  = Some [] /\
  Load.load_srec count [SRecord.generate_record end_type start []] = Some [].
Proof.
  intros Hc He.
  assert (Load.load_srec count [SRecord.generate_record end_type start []]
          = Some []) as Hend.
  { cbn [Load.load_srec]. rewrite srec_parse_generate. cbv zeta.
    rewrite srec_record_ok_generate
      by (pose proof (get_address_bytes_range end_type);
          change (size (@nil byte)) with 0; lia).
    cbn [negb Decode.s_type].
    destruct end_type; cbn in He; try lia; reflexivity. }
  split; [|exact Hend].
  cbn [Load.load_srec] in *. rewrite (srec_parse_generate SRecord.S5_COUNT_16).
  cbv zeta. rewrite srec_record_ok_generate by (cbn; lia).
  cbn [negb Decode.s_type Decode.s_address SRecord.int_of_type].
  change (5 =? 0) with false. change (5 =? 1) with false.
  change (5 =? 2) with false. change (5 =? 3) with false.
  change (5 =? 5) with true. cbn [orb].
  rewrite srec_address_field_count by exact Hc. rewrite Z.eqb_refl.
  exact Hend.
Qed.

(** The loader reads the records of the loop as the rest of the buffer
    at the current address, when the addresses fit in 16 bits. *)
Lemma load_srec_loop_16 (fuel : nat) (bpl : Z) (data : list byte) :
  1 <= bpl ->
  forall (cur off rc : Z) (ls : list string) (rc' seen : Z) (tail : list string),
  0 <= off -> 0 <= cur -> cur + Z.max 0 (size data - off) <= 65536 ->
  SRecord.write_data_records fuel bpl SRecord.S1_DATA_16 data [] cur off rc
    = Some (ls, rc') ->
  Load.load_srec seen (ls ++ tail) =
  match Load.load_srec (seen + Z.of_nat (List.length ls)) tail with
  | Some m =>
    Some (Load.place cur (map byte_val (skipn (Z.to_nat off) data)) ++ m)%list
  | None => None
  end.
Proof.
  intros Hb.
  assert (forall cur off seen tail, size data <= off ->
            Load.load_srec seen ([] ++ tail) =
            match Load.load_srec (seen + Z.of_nat (@List.length string [])) tail with
            | Some m =>
              Some (Load.place cur (map byte_val (skipn (Z.to_nat off) data)) ++ m)%list
            | None => None
            end) as Hdone.
  { intros cur off seen tail Hge. cbn [app List.length Z.of_nat].
    rewrite Z.add_0_r, skipn_all2 by (unfold size in Hge; lia).
    destruct (Load.load_srec seen tail); reflexivity. }
  induction fuel as [|fuel IH]; intros cur off rc ls rc' seen tail Ho Hc Hw E.
  - cbn [SRecord.write_data_records] in E.
    destruct (Z.ltb_spec off (size data)) as [Hlt|Hge]; [discriminate|].
    injection E as <- <-. apply Hdone. exact Hge.
  - destruct (Z.lt_ge_cases off (size data)) as [Hlt|Hge].
    + rewrite srec_loop_step in E by exact Hlt. cbv zeta in E.
      destruct (srec_chunk_bounds bpl (size data - off) SRecord.S1_DATA_16 Hb
                  ltac:(lia)) as (Hn0 & Hn1 & Hn2 & Hn3).
      set (n := Z.min (Z.min bpl (size data - off))
                      (255 - SRecord.get_address_bytes SRecord.S1_DATA_16 - 1)) in *.
      change (255 - SRecord.get_address_bytes SRecord.S1_DATA_16 - 1) with 252 in Hn3.
      destruct (SRecord.write_data_records fuel bpl SRecord.S1_DATA_16 data [] _ _ _)
        as [[ls0 rc0]|] eqn:E0; [|discriminate].
      injection E as <- <-.
      rewrite (u32_small (cur + n)) in E0 by lia.
      pose proof (slice_size data off n Ho ltac:(lia) ltac:(lia)) as Hs.
      assert (0 <= off + n) as H1 by lia.
      assert (0 <= cur + n) as H2 by lia.
      assert (cur + n + Z.max 0 (size data - (off + n)) <= 65536) as H3 by lia.
      cbn [app]. rewrite load_srec_data_16 by lia.
      rewrite (IH _ _ _ _ _ (seen + 1) tail H1 H2 H3 E0).
      cbn [List.length]. rewrite Nat2Z.inj_succ.
      replace (seen + Z.succ (Z.of_nat (List.length ls0)))
        with (seen + 1 + Z.of_nat (List.length ls0)) by lia.
      destruct (Load.load_srec _ tail) as [m|]; [|reflexivity].
      rewrite <- (slice_skipn data off n Ho ltac:(lia)), (map_app byte_val),
        place_app, size_map, Hs, <- app_assoc. reflexivity.
    + rewrite srec_loop_done in E by exact Hge. injection E as <- <-.
      apply Hdone. exact Hge.
Qed.

(** X9. Round trip of a 16-bit S-Record file.  For a buffer that ends
    at or below [0x10000] and a header of at most 252 characters, the
    file written by [convert_to_srec] with address size 16 loads back,
    with byte counts, checksums and the record count verified, as the
    buffer at the consecutive addresses from [start_address]. *)
Theorem srec_round_trip_16
    (is_open : string -> bool) (self : SRecord.SRecordConverter)
    (binary_data : list byte) (start_address : Z) (output_file : string)
    (header : string) :
  is_open output_file = true ->
  1 <= SRecord.bytes_per_line_ self ->
  0 <= start_address ->
  start_address + size binary_data <= 0x10000 ->
  (String.length header <= 252)%nat ->
  exists r,
    SRecord.convert_to_srec is_open self binary_data start_address output_file
      16 header = Some r /\
    returned r = true /\
    Load.load_srec 0 (written r)
    = Some (Load.place start_address (map byte_val binary_data)).
Proof.
  intros Ho Hb Hs Hw Hh.
  assert (0 <= size binary_data) as Hsz by (unfold size; lia).
  unfold SRecord.convert_to_srec. rewrite Ho. cbn [negb].
  change (negb (16 =? 16) && negb (16 =? 24) && negb (16 =? 32))%bool with false.
  cbv iota zeta.
  change (SRecord.get_data_record_type 16) with SRecord.S1_DATA_16.
  change (SRecord.get_end_record_type 16) with SRecord.S9_END_16.
  rewrite srec_loop_out.
  destruct (srec_loop_terminates (List.length binary_data)
              (SRecord.bytes_per_line_ self) SRecord.S1_DATA_16 binary_data []
              start_address 0 0 Hb) as [[ls rc] E]; [unfold size; lia|].
  rewrite E.
  assert (0 + Z.max 0 (size binary_data - 0) < 4294967296) as Hrc by lia.
  destruct (srec_loop_count _ _ _ _ Hb _ _ _ _ _ (Z.le_refl 0) (Z.le_refl 0) Hrc E)
    as [Hc Hl].
  assert (Z.of_nat (List.length ls) <= 65536) as Hk.
  { rewrite Hl. rewrite Z.max_r, Z.sub_0_r by lia.
    set (c := Z.min _ _).
    assert (1 <= c) by (unfold c; cbn; lia).
    apply Z.div_le_upper_bound; nia. }
  eexists. split; [reflexivity|]. split; [reflexivity|]. cbn [written].
  assert (start_address + Z.max 0 (size binary_data - 0) <= 65536) as Hw0 by lia.
  pose proof (fun tail =>
                load_srec_loop_16 _ _ _ Hb _ _ _ _ _ 0 tail (Z.le_refl 0) Hs Hw0 E)
    as Hload.
  cbn [Z.to_nat skipn] in Hload. rewrite Z.add_0_l in Hc. subst rc.
  assert (forall tail,
            Load.load_srec 0
              ((if negb (String.length header =? 0)%nat
                then ([] ++ [SRecord.generate_record SRecord.S0_HEADER 0
                               (list_byte_of_string header)])%list
                else []) ++ tail)
            = Load.load_srec 0 tail) as Hhdr.
  { intros tail. destruct (String.length header =? 0)%nat; cbn [negb app];
      [reflexivity|]. apply load_srec_header. exact Hh. }
  destruct (Z.leb_spec (Z.of_nat (List.length ls)) 0xFFFF) as [Hle|Hgt].
  - rewrite <- !app_assoc, Hhdr, Hload, Z.add_0_l. cbn [app].
    destruct (load_srec_count_end (Z.of_nat (List.length ls)) start_address
                SRecord.S9_END_16 ltac:(lia) ltac:(cbn; lia)) as [-> _].
    rewrite app_nil_r. reflexivity.
  - rewrite <- !app_assoc, Hhdr, Hload.
    assert (Z.of_nat (List.length ls) = 65536) as Hk' by lia.
    rewrite Z.add_0_l, Hk'.
    assert (Load.load_srec 65536
              [SRecord.generate_record SRecord.S9_END_16 start_address []]
            = Some []) as ->.
    { cbn [Load.load_srec]. rewrite srec_parse_generate. cbv zeta.
      rewrite srec_record_ok_generate by (cbn; lia). reflexivity. }
    rewrite app_nil_r. reflexivity.
Qed.

Lemma srec_round_trip_16_witness :
  exists r,
    SRecord.convert_to_srec (fun _ => true) (SRecord.new 3) (bytes_of [1; 2; 3; 4])
      0xFFFC "out.srec" 16 "HDR" = Some r /\
    returned r = true /\
    Load.load_srec 0 (written r)
    = Some (Load.place 0xFFFC (map byte_val (bytes_of [1; 2; 3; 4]))).
Proof.
  apply (srec_round_trip_16 (fun _ => true) (SRecord.new 3) (bytes_of [1; 2; 3; 4])
           0xFFFC "out.srec" "HDR").
  - reflexivity.
  - cbn. lia.
  - lia.
  - vm_compute. discriminate.
  - cbn. lia.
Defined.

(** ** The records of an S-Record file, in order *)

Lemma srec_address_bytes_of_size (address_size : Z) :
  address_size = 16 \/ address_size = 24 \/ address_size = 32 ->
  SRecord.get_address_bytes (SRecord.get_data_record_type address_size)
    = address_size / 8 /\
  SRecord.get_address_bytes (SRecord.get_end_record_type address_size)
    = address_size / 8.
Proof. intros [-> | [-> | ->]]; split; reflexivity. Qed.

Lemma shiftr_24 (x : Z) : Z.shiftr x 24 = x / 16777216.
Proof. rewrite Z.shiftr_div_pow2 by lia. reflexivity. Qed.

(** Read back, the data records of the loop carry the rest of the
    buffer, in order. *)
Lemma srec_loop_payloads (fuel : nat) (bpl : Z) (type : SRecord.RecordType)
    (data : list byte) :
  1 <= bpl ->
  SRecord.int_of_type type = 1 \/ SRecord.int_of_type type = 2
  \/ SRecord.int_of_type type = 3 ->
  forall (cur off rc : Z) (ls : list string) (rc' : Z),
  0 <= off ->
  SRecord.write_data_records fuel bpl type data [] cur off rc = Some (ls, rc') ->
  SOut.data_payloads ls = map byte_val (skipn (Z.to_nat off) data).
Proof.
  intros Hb Hty.
  assert (((SRecord.int_of_type type =? 1) || (SRecord.int_of_type type =? 2)
           || (SRecord.int_of_type type =? 3))%bool = true) as Hdata
    by (destruct Hty as [-> | [-> | ->]]; reflexivity).
  induction fuel as [|fuel IH]; intros cur off rc ls rc' Ho E.
  - cbn [SRecord.write_data_records] in E.
    destruct (Z.ltb_spec off (size data)) as [Hlt|Hge]; [discriminate|].
    injection E as <- <-. rewrite skipn_all2 by (unfold size in Hge; lia).
    reflexivity.
  - destruct (Z.lt_ge_cases off (size data)) as [Hlt|Hge].
    + rewrite srec_loop_step in E by exact Hlt. cbv zeta in E.
      destruct (srec_chunk_bounds bpl (size data - off) type Hb ltac:(lia))
        as (Hn0 & _ & _ & _).
      set (n := Z.min (Z.min bpl (size data - off))
                      (255 - SRecord.get_address_bytes type - 1)) in *.
      destruct (SRecord.write_data_records fuel bpl type data [] _ _ _)
        as [[ls0 rc0]|] eqn:E0; [|discriminate].
      injection E as <- <-.
      assert (0 <= off + n) as H1 by lia.
      cbn [SOut.data_payloads]. rewrite srec_parse_generate.
      cbn [Decode.s_type Decode.s_payload]. rewrite Hdata.
      rewrite (IH _ _ _ _ _ H1 E0), <- map_app.
      rewrite slice_skipn by lia. reflexivity.
    + rewrite srec_loop_done in E by exact Hge. injection E as <- <-.
      rewrite skipn_all2 by (unfold size in Hge; lia). reflexivity.
Qed.

(** X10. The file written by [convert_to_srec], with every field read
    back from the text, is in this order: the S0 header record carrying
    the header text at address field 00 00, if the header is not empty;
    [k] data records of type S1, S2 or S3 by address size, which carry
    the buffer in order, where [k] is the buffer size divided by the
    chunk size [min(bytes_per_line, 255 - address bytes - 1)], rounded
    up; the S5 count record whose address field reads [k] and whose
    payload is [k] in two bytes, present exactly when [k <= 0xFFFF]; the
    end record of type S9, S8 or S7 with no payload, whose address field
    holds bytes of [start_address] in the order bits 15-8, bits 7-0,
    bits 23-16, bits 31-24, as many as the address size has bytes. *)
Theorem srec_file_structure
    (is_open : string -> bool) (self : SRecord.SRecordConverter)
    (binary_data : list byte) (start_address : Z) (output_file : string)
    (address_size : Z) (header : string) :
  is_open output_file = true ->
  address_size = 16 \/ address_size = 24 \/ address_size = 32 ->
  1 <= SRecord.bytes_per_line_ self ->
  size binary_data < 2 ^ 32 ->
  let ab := address_size / 8 in
  let c := Z.min (SRecord.bytes_per_line_ self) (255 - ab - 1) in
  let k := (size binary_data + c - 1) / c in
  exists header_lines data_lines count_lines end_line,
    SRecord.convert_to_srec is_open self binary_data start_address output_file
      address_size header
    = Some (mkOutcome true self
              (header_lines ++ data_lines ++ count_lines ++ [end_line])%list) /\
    (if (String.length header =? 0)%nat then header_lines = []
     else exists line f,
         header_lines = [line] /\ Decode.parse_srec line = Some f /\
         Decode.s_type f = 0 /\ Decode.s_address f = [0; 0] /\
         Decode.s_payload f = map byte_val (list_byte_of_string header)) /\
    Z.of_nat (List.length data_lines) = k /\
    Forall (fun l => SOut.line_type l = Some (ab - 1)) data_lines /\
    SOut.data_payloads data_lines = map byte_val binary_data /\
    (if k <=? 0xFFFF
     then exists line f,
         count_lines = [line] /\ Decode.parse_srec line = Some f /\
         Decode.s_type f = 5 /\ Decode.big_endian (Decode.s_address f) = k /\
         Decode.s_payload f = [k / 256; k mod 256]
     else count_lines = []) /\
    exists f,
      Decode.parse_srec end_line = Some f /\
      Decode.s_type f = 11 - ab /\ Decode.s_payload f = [] /\
      Decode.s_address f =
      firstn (Z.to_nat ab)
        [start_address / 2 ^ 8 mod 256; start_address mod 256;
         start_address / 2 ^ 16 mod 256; start_address / 2 ^ 24 mod 256].
Proof.
  intros Ho Hsz Hb Hw ab c k.
  change (2 ^ 32) with 4294967296 in Hw.
  assert (0 <= size binary_data) as Hs0 by (unfold size; lia).
  unfold SRecord.convert_to_srec. rewrite Ho. cbn [negb].
  assert ((negb (address_size =? 16) && negb (address_size =? 24)
           && negb (address_size =? 32))%bool = false) as Ev
    by (destruct Hsz as [-> | [-> | ->]]; reflexivity).
  rewrite Ev. cbv zeta.
  set (data_type := SRecord.get_data_record_type address_size).
  set (end_type := SRecord.get_end_record_type address_size).
  rewrite srec_loop_out.
  destruct (srec_loop_terminates (List.length binary_data)
              (SRecord.bytes_per_line_ self) data_type binary_data []
              start_address 0 0 Hb) as [[ls rc] E]; [unfold size; lia|].
  rewrite E.
  assert (0 + Z.max 0 (size binary_data - 0) < 4294967296) as Hrc by lia.
  destruct (srec_loop_count _ _ _ _ Hb _ _ _ _ _ (Z.le_refl 0) (Z.le_refl 0) Hrc E)
    as [Hc Hl].
  destruct (srec_address_bytes_of_size address_size Hsz) as [Hab _].
  fold data_type in Hab. rewrite Hab in Hl. fold ab in Hl. fold c in Hl.
  rewrite Z.max_r, Z.sub_0_r in Hl by lia. fold k in Hl.
  rewrite Z.add_0_l, Hl in Hc. subst rc.
  assert (0 <= k) as Hk0 by lia.
  assert (SRecord.int_of_type data_type = ab - 1) as Hdt
    by (unfold data_type, ab; destruct Hsz as [-> | [-> | ->]]; reflexivity).
  exists (if (String.length header =? 0)%nat then []
          else [SRecord.generate_record SRecord.S0_HEADER 0
                  (list_byte_of_string header)]).
  exists ls.
  exists (if k <=? 0xFFFF
          then [SRecord.generate_record SRecord.S5_COUNT_16 k
                  [byte_of_Z (u8 (Z.shiftr k 8)); byte_of_Z (u8 (Z.land k 0xFF))]]
          else []).
  exists (SRecord.generate_record end_type start_address []).
  split; [|split; [|split; [|split; [|split; [|split]]]]].
  - f_equal. f_equal.
    destruct (String.length header =? 0)%nat; cbn [negb];
      destruct (k <=? 0xFFFF); repeat rewrite <- app_assoc; cbn [app];
      reflexivity.
  - destruct (String.length header =? 0)%nat; [reflexivity|].
    eexists. eexists. split; [reflexivity|].
    split; [apply srec_parse_generate|]. repeat split.
  - exact Hl.
  - rewrite <- Hdt.
    exact (srec_loop_forall
             (fun l => SOut.line_type l = Some (SRecord.int_of_type data_type))
             _ _ _ _
             (fun addr d _ =>
                f_equal (option_map Decode.s_type)
                        (srec_parse_generate data_type addr d))
             _ _ _ _ _ (Forall_nil _) E).
  - assert (SRecord.int_of_type data_type = 1 \/ SRecord.int_of_type data_type = 2
            \/ SRecord.int_of_type data_type = 3) as Hty
      by (rewrite Hdt; unfold ab; destruct Hsz as [-> | [-> | ->]]; auto).
    exact (srec_loop_payloads _ _ _ _ Hb Hty _ _ _ _ _ (Z.le_refl 0) E).
  - destruct (Z.leb_spec k 0xFFFF) as [Hle|Hgt]; [|reflexivity].
    eexists. eexists. split; [reflexivity|].
    split; [apply srec_parse_generate|].
    cbn [Decode.s_type Decode.s_address Decode.s_payload SRecord.int_of_type map].
    split; [reflexivity|]. split; [apply srec_address_field_count; lia|].
    rewrite !byte_val_of_Z by apply u8_range.
    rewrite shiftr_8, land_FF. unfold u8. change (2 ^ 8) with 256.
    f_equal; [|f_equal]; Z.div_mod_to_equations; lia.
  - eexists. split; [apply srec_parse_generate|].
    cbn [Decode.s_type Decode.s_address Decode.s_payload map].
    unfold end_type, ab.
    destruct Hsz as [-> | [-> | ->]];
      (split; [reflexivity|]; split; [reflexivity|]);
      unfold SOut.address_field;
      cbn [SRecord.get_end_record_type SRecord.get_address_bytes Z.eqb Pos.eqb
           Z.leb Z.compare Pos.compare Pos.compare_cont app];
      rewrite ?shiftr_8, ?shiftr_16, ?shiftr_24, ?land_FF;
      unfold u8; change (2 ^ 8) with 256;
      rewrite ?Z.mod_mod by lia; reflexivity.
Qed.

Lemma srec_file_structure_witness :
  exists header_lines data_lines count_lines end_line,
    option_map written
      (SRecord.convert_to_srec (fun _ => true) (SRecord.new 2)
         (bytes_of [1; 2; 3]) 0x1000 "out.srec" 24 "H")
    = Some (header_lines ++ data_lines ++ count_lines ++ [end_line])%list /\
    Z.of_nat (List.length data_lines) = 2 /\
    SOut.data_payloads data_lines = [1; 2; 3] /\
    exists f,
      Decode.parse_srec end_line = Some f /\ Decode.s_type f = 8 /\
      Decode.s_address f = [0x10; 0x00; 0x00].
Proof.
  destruct (srec_file_structure (fun _ => true) (SRecord.new 2) (bytes_of [1; 2; 3])
              0x1000 "out.srec" 24 "H")
    as (h & d & cl & e & E & _ & L & _ & P & _ & f & Pe & Te & _ & Ae).
  - reflexivity.
  - right. left. reflexivity.
  - cbn. lia.
  - reflexivity.
  - exists h, d, cl, e. split; [rewrite E; reflexivity|].
    split; [exact L|]. split; [exact P|].
    exists f. split; [exact Pe|]. split; [exact Te|exact Ae].
Defined.

Lemma srec_byte_count_short_header_witness :
  Forall (fun line =>
            exists f, Decode.parse_srec line = Some f /\
              Decode.s_count f =
              size (Decode.s_address f) + size (Decode.s_payload f) + 1)
         ["S00600004844521B"; "S3065678341201E4"; "S50500010001F8"; "S70556783412E6"].
Proof.
  apply (srec_byte_count_short_header (fun _ => true) (SRecord.new 4)
           (bytes_of [1]) 0x12345678 "out.srec" 32 "HDR"
           (mkOutcome true (SRecord.new 4)
              ["S00600004844521B"; "S3065678341201E4"; "S50500010001F8";
               "S70556783412E6"])).
  - cbn. lia.
  - reflexivity.
Defined.

(** ** bin2hex: the base name of the input file *)

Import Bin2hex.

Lemma find_last_of_from_acc (chars : list ascii) (s : string) (i : nat)
    (last : option nat) :
  find_last_of_from chars s i last =
  match find_last_of_from chars s i None with
  | Some k => Some k
  | None => last
  end.
Proof.
  revert i last. induction s as [|c s IH]; intros i last;
    cbn [find_last_of_from]; [reflexivity|].
  destruct (existsb (Ascii.eqb c) chars).
  - rewrite (IH (S i) (Some i)).
    destruct (find_last_of_from chars s (S i) None); reflexivity.
  - apply IH.
Qed.

Lemma find_last_of_from_shift (chars : list ascii) (s : string) (i : nat) :
  find_last_of_from chars s i None =
  option_map (Nat.add i) (find_last_of chars s).
Proof.
  unfold find_last_of. revert i. induction s as [|c s IH]; intros i;
    cbn [find_last_of_from]; [reflexivity|].
  rewrite (find_last_of_from_acc chars s (S i)).
  rewrite (find_last_of_from_acc chars s 1).
  rewrite (IH (S i)), (IH 1%nat).
  destruct (find_last_of_from chars s 0 None) as [k|]; cbn [option_map].
  - f_equal. lia.
  - destruct (existsb (Ascii.eqb c) chars); cbn [option_map];
      [f_equal; lia|reflexivity].
Qed.

Lemma find_last_of_app (chars : list ascii) (a b : string) :
  find_last_of chars (a ++ b) =
  match find_last_of chars b with
  | Some k => Some (String.length a + k)%nat
  | None => find_last_of chars a
  end.
Proof.
  unfold find_last_of.
  assert (forall i last,
            find_last_of_from chars (a ++ b) i last =
            match find_last_of_from chars b (i + String.length a) None with
            | Some k => Some k
            | None => find_last_of_from chars a i last
            end) as G.
  { induction a as [|c a IH]; intros i last; cbn [String.append String.length
                                                        find_last_of_from].
    - rewrite Nat.add_0_r. apply find_last_of_from_acc.
    - rewrite IH. replace (S i + String.length a)%nat
        with (i + S (String.length a))%nat by lia. reflexivity. }
  rewrite G. cbn [Nat.add]. rewrite find_last_of_from_shift. unfold find_last_of.
  destruct (find_last_of_from chars b 0 None); reflexivity.
Qed.

Lemma find_last_of_bound (chars : list ascii) (s : string) (k : nat) :
  find_last_of chars s = Some k -> (k < String.length s)%nat.
Proof.
  revert k. induction s as [|c s IH]; intros k; [discriminate|].
  change (String c s) with (String c "" ++ s). rewrite find_last_of_app.
  destruct (find_last_of chars s) as [j|].
  - intros [= <-]. specialize (IH j eq_refl). cbn [String.length String.append]. lia.
  - unfold find_last_of. cbn [find_last_of_from].
    destruct (existsb (Ascii.eqb c) chars); [|discriminate].
    intros [= <-]. cbn [String.length String.append]. lia.
Qed.

Lemma string_length_app (a b : string) :
  String.length (a ++ b) = (String.length a + String.length b)%nat.
Proof. induction a as [|c a IH]; cbn; [reflexivity|]. rewrite IH. reflexivity. Qed.

Lemma substring_skip (a s : string) (m : nat) :
  String.substring (String.length a) m (a ++ s) = String.substring 0 m s.
Proof. induction a as [|c a IH]; [reflexivity|]. cbn. exact IH. Qed.

Lemma substring_prefix (b c : string) :
  String.substring 0 (String.length b) (b ++ c) = b.
Proof.
  induction b as [|x b IH]; cbn.
  - destruct c; reflexivity.
  - rewrite IH. reflexivity.
Qed.

(** A directory part: empty, or ending with a slash or a backslash. *)
Lemma find_separator_prefix (prefix : string) :
  prefix = "" \/
  (exists p sep, prefix = p ++ String sep "" /\ (sep = "/"%char \/ sep = "\"%char)) ->
  match find_last_of ["/"%char; "\"%char] prefix with
  | None => 0%nat
  | Some i => (i + 1)%nat
  end = String.length prefix.
Proof.
  intros [-> | (p & sep & -> & Hsep)]; [reflexivity|].
  rewrite find_last_of_app, string_length_app.
  destruct Hsep as [-> | ->]; cbn; lia.
Qed.

(** X11. For a path made of a directory part (empty, or ending with
    [/] or [\]), a name without separators, a dot and an extension
    without separators or dots, [get_base_filename] is the name: the
    directory and the last extension are dropped, earlier dots of the
    name are kept. *)
Theorem get_base_filename_with_extension (prefix name ext : string) :
  prefix = "" \/
  (exists p sep, prefix = p ++ String sep "" /\ (sep = "/"%char \/ sep = "\"%char)) ->
  find_last_of ["/"%char; "\"%char] name = None ->
  find_last_of ["/"%char; "\"%char] ext = None ->
  find_last_of ["."%char] ext = None ->
  get_base_filename (prefix ++ name ++ "." ++ ext) = name.
Proof.
  intros Hp Hn He Hd. unfold get_base_filename. cbv zeta.
  assert (find_last_of ["/"%char; "\"%char] (prefix ++ name ++ "." ++ ext)
          = find_last_of ["/"%char; "\"%char] prefix) as Es.
  { rewrite !find_last_of_app, He, Hn. reflexivity. }
  rewrite Es, (find_separator_prefix prefix Hp).
  assert (find_last_of ["."%char] (prefix ++ name ++ "." ++ ext)
          = Some (String.length prefix + String.length name)%nat) as Ed.
  { rewrite !find_last_of_app, Hd. cbn. f_equal. lia. }
  rewrite Ed.
  destruct (Nat.ltb_spec (String.length prefix + String.length name)
                         (String.length prefix)) as [Hlt|_]; [lia|].
  unfold substr.
  replace (String.length prefix + String.length name - String.length prefix)%nat
    with (String.length name) by lia.
  rewrite substring_skip. apply substring_prefix.
Qed.

Lemma get_base_filename_with_extension_witness :
  get_base_filename ("build/v1.2/" ++ "firmware.v2" ++ "." ++ "bin") = "firmware.v2".
Proof.
  apply (get_base_filename_with_extension "build/v1.2/" "firmware.v2" "bin").
  - right. exists "build/v1.2", "/"%char. split; [reflexivity|left; reflexivity].
  - reflexivity.
  - reflexivity.
  - reflexivity.
Defined.

(** X12. When the file name has no dot, [get_base_filename] is the
    file name, even if a directory of the path has a dot. *)
Theorem get_base_filename_without_extension (prefix name : string) :
  prefix = "" \/
  (exists p sep, prefix = p ++ String sep "" /\ (sep = "/"%char \/ sep = "\"%char)) ->
  find_last_of ["/"%char; "\"%char] name = None ->
  find_last_of ["."%char] name = None ->
  get_base_filename (prefix ++ name) = name.
Proof.
  intros Hp Hn Hd. unfold get_base_filename. cbv zeta.
  rewrite !find_last_of_app, Hn, Hd, (find_separator_prefix prefix Hp).
  assert (substr (prefix ++ name) (String.length prefix)
            (String.length (prefix ++ name) - String.length prefix) = name) as E.
  { unfold substr. rewrite string_length_app.
    replace (String.length prefix + String.length name - String.length prefix)%nat
      with (String.length name) by lia.
    rewrite substring_skip.
    rewrite <- (string_app_empty name) at 2. apply substring_prefix. }
  destruct (find_last_of ["."%char] prefix) as [d|] eqn:Ef; [|exact E].
  apply find_last_of_bound in Ef.
  destruct (Nat.ltb_spec d (String.length prefix)) as [_|Hge]; [exact E|lia].
Qed.

Lemma get_base_filename_without_extension_witness :
  get_base_filename ("rel.d\" ++ "image") = "image".
Proof.
  apply (get_base_filename_without_extension "rel.d\" "image").
  - right. exists "rel.d", "\"%char. split; [reflexivity|right; reflexivity].
  - reflexivity.
  - reflexivity.
Defined.

(** ** The byte-count field of Intel HEX records *)

Lemma calls_data_sizes (fuel : nat) (bpl : Z) (ext : bool) (data : list byte) :
  1 <= bpl ->
  forall (cur ea off : Z) (cs : list Call),
  0 <= off ->
  calls fuel bpl ext data cur ea off = Some cs ->
  Forall (fun c => match c with
                   | Ext _ => True
                   | Data _ n d => size d = n /\ 1 <= n <= bpl
                   end) cs.
Proof.
  intros Hb.
  induction fuel as [|fuel IH]; intros cur ea off cs Ho; cbn [calls];
    destruct (Z.ltb_spec off (size data)) as [Hlt|Hge]; try discriminate;
    try (intros [= <-]; constructor).
  cbv zeta.
  destruct (chunk_bounds bpl (size data - off) cur ltac:(lia) ltac:(lia))
    as (_ & Hn1 & Hn2 & _).
  pose proof (min_chunk_positive bpl (size data - off) cur Hb ltac:(lia)) as Hn0.
  set (n := Z.min (Z.min bpl (size data - off)) (0x10000 - Z.land cur 0xFFFF)) in *.
  match goal with |- context [calls fuel bpl ext data ?c ?e ?o] =>
    destruct (calls fuel bpl ext data c e o) as [rest|] eqn:E end;
    [|discriminate].
  intros [= <-]. apply Forall_app. split.
  - destruct (ext && negb (Z.shiftr cur 16 =? ea))%bool; repeat constructor.
  - constructor.
    + split; [apply slice_size; lia|lia].
    + assert (0 <= off + n) as H1 by lia. exact (IH _ _ _ _ H1 E).
Qed.

(** X13. In every record written by [convert_to_hex] the byte-count
    field is the payload length reduced modulo 256, and no data record
    is empty.  The field is the payload length itself when the line
    width is at most 255, as the constructor ensures;
    [set_bytes_per_line] can set a larger one. *)
Theorem intel_byte_count_field
    (is_open : string -> bool) (self : IntelHex.IntelHexConverter)
    (binary_data : list byte) (start_address : Z) (output_file : string)
    (use_extended_address : bool) (r : Outcome IntelHex.IntelHexConverter) :
  1 <= IntelHex.bytes_per_line_ self ->
  IntelHex.convert_to_hex is_open self binary_data start_address output_file
    use_extended_address = Some r ->
  Forall (fun line =>
            exists f, Decode.parse_intel line = Some f /\
              Decode.i_count f = size (Decode.i_payload f) mod 256 /\
              (IntelHex.bytes_per_line_ self <= 255 ->
               Decode.i_count f = size (Decode.i_payload f)) /\
              (Decode.i_type f = IntelHex.DATA_RECORD ->
               1 <= size (Decode.i_payload f)))
         (written r).
Proof.
  intros Hb. destruct (is_open output_file) eqn:Ho.
  - rewrite convert_to_hex_calls by exact Ho.
    destruct (calls _ _ _ _ _ _ _) as [cs|] eqn:E; [|discriminate].
    intros [= <-]. cbn [written]. apply Forall_app. split.
    + apply Forall_map.
      pose proof (calls_data_sizes _ _ _ _ Hb _ _ _ _ (Z.le_refl 0) E) as B.
      eapply Forall_impl; [|exact B]. intros c Hc.
      destruct c as [a|a n d].
      * eexists. split; [apply parse_render_ext|].
        cbn [Decode.i_count Decode.i_payload Decode.i_type].
        repeat split; try reflexivity. discriminate.
      * destruct Hc as [Hs Hn]. eexists. split; [apply parse_render_data|].
        cbn [Decode.i_count Decode.i_payload Decode.i_type].
        rewrite size_map, Hs. repeat split.
        -- intros H255. apply u8_small. lia.
        -- intros _. lia.
    + constructor; [|constructor].
      eexists. split; [apply parse_eof_line|].
      cbn [Decode.i_count Decode.i_payload Decode.i_type].
      repeat split; try reflexivity. discriminate.
  - rewrite convert_to_hex_closed by exact Ho. intros [= <-]. constructor.
Qed.

Lemma intel_byte_count_field_witness :
  Forall (fun line =>
            exists f, Decode.parse_intel line = Some f /\
              Decode.i_count f = size (Decode.i_payload f) mod 256 /\
              (4 <= 255 -> Decode.i_count f = size (Decode.i_payload f)) /\
              (Decode.i_type f = IntelHex.DATA_RECORD ->
               1 <= size (Decode.i_payload f)))
         [":020000040000FA"; ":0400000001020304F2"; ":00000001FF"].
Proof.
  apply (intel_byte_count_field (fun _ => true) (IntelHex.new 4)
           (bytes_of [1; 2; 3; 4]) 0 "out.hex" true
           (mkOutcome true (IntelHex.new 4)
              [":020000040000FA"; ":0400000001020304F2"; ":00000001FF"])).
  - cbn. lia.
  - reflexivity.
Defined.
